(** * Open3D [Geometry/PointCloud.cpp]: a shallow embedding and its properties

    Scalars are IEEE binary64 numbers ([double] in the source), modelled by
    Rocq's primitive floats.  A [std::vector] is a list, indexed from 0; an
    access through [operator[]] outside the vector is undefined behaviour and
    is modelled by [None] in the option monad.  Objects that the source
    reaches through references ([*this], [cloud]) live in a heap, so that two
    references may denote the same object. *)

From Stdlib Require Import ZArith Lia Bool Floats.
From stdpp Require Import base option list gmap strings.

(** ** Eigen vectors and matrices *)

Record Vector3d := Vec3 { vx : float; vy : float; vz : float }.

Record Vector4d := Vec4 { hx : float; hy : float; hz : float; hw : float }.

(** A row-major 3x3 matrix: [r0], [r1], [r2] are its rows. *)
Record Matrix3d := Mat3 { r0 : Vector3d; r1 : Vector3d; r2 : Vector3d }.

(** A row-major 4x4 matrix. *)
Record Matrix4d := Mat4 { q0 : Vector4d; q1 : Vector4d; q2 : Vector4d; q3 : Vector4d }.

(** [v(i)] *)
Definition coeff (v : Vector3d) (i : nat) : float :=
  match i with
  | 0 => vx v
  | 1 => vy v
  | _ => vz v
  end.

(** [m(i, j)] *)
Definition coeff2 (m : Matrix3d) (i j : nat) : float :=
  match i with
  | 0 => coeff (r0 m) j
  | 1 => coeff (r1 m) j
  | _ => coeff (r2 m) j
  end.

(** [Eigen::Vector3d::Zero()], also [Eigen::Vector3d(0.0, 0.0, 0.0)] *)
Definition Vector3d_Zero : Vector3d := Vec3 0 0 0.

(** [Eigen::Matrix3d::Identity()] *)
Definition Matrix3d_Identity : Matrix3d :=
  Mat3 (Vec3 1 0 0) (Vec3 0 1 0) (Vec3 0 0 1).

#[global] Instance Vector3d_inhabited : Inhabited Vector3d := populate Vector3d_Zero.

(** ** The point cloud *)

Record PointCloud := mkPointCloud {
  points_ : list Vector3d;
  normals_ : list Vector3d;
  colors_ : list Vector3d
}.

#[global] Instance PointCloud_inhabited : Inhabited PointCloud :=
  populate (mkPointCloud [] [] []).

(** Modelled from the spec: [HasPoints], [HasNormals] and [HasColors] are
    declared in PointCloud.h, which is not among the sources.  The point
    sequence is present when it is not empty; an attribute sequence is either
    empty or as long as the point sequence, and the cloud has the attribute
    when the points are present and the attribute sequence is as long as the
    point sequence. *)
Definition HasPoints (pc : PointCloud) : bool :=
  negb (Nat.eqb (length (points_ pc)) 0).

Definition HasNormals (pc : PointCloud) : bool :=
  HasPoints pc && Nat.eqb (length (normals_ pc)) (length (points_ pc)).

Definition HasColors (pc : PointCloud) : bool :=
  HasPoints pc && Nat.eqb (length (colors_ pc)) (length (points_ pc)).

(** [PointCloud::Clear] *)
Definition Clear (pc : PointCloud) : PointCloud := mkPointCloud [] [] [].

(** [PointCloud::IsEmpty] *)
Definition IsEmpty (pc : PointCloud) : bool := negb (HasPoints pc).

(** ** [std::min_element], [std::max_element]

    Both return an iterator, here the position in the range; on an empty
    range the iterator is [last], position 0.  The loop keeps the position
    [smallest] (with the element under it) and advances [first]. *)
Section Algorithm.
Context {A : Type} (comp : A → A → bool).

Fixpoint min_element_loop (smallest : nat) (sv : A) (first : nat) (rest : list A) : nat :=
  match rest with
  | [] => smallest
  | x :: rest' =>
      if comp x sv then min_element_loop first x (S first) rest'
      else min_element_loop smallest sv (S first) rest'
  end.

Definition min_element (l : list A) : nat :=
  match l with
  | [] => 0
  | x :: rest => min_element_loop 0 x 1 rest
  end.

Fixpoint max_element_loop (largest : nat) (lv : A) (first : nat) (rest : list A) : nat :=
  match rest with
  | [] => largest
  | x :: rest' =>
      if comp lv x then max_element_loop first x (S first) rest'
      else max_element_loop largest lv (S first) rest'
  end.

Definition max_element (l : list A) : nat :=
  match l with
  | [] => 0
  | x :: rest => max_element_loop 0 x 1 rest
  end.
End Algorithm.

(** The three comparators [a(k) < b(k)]. *)
Definition less_on (k : nat) (a b : Vector3d) : bool :=
  PrimFloat.ltb (coeff a k) (coeff b k).

(** [PointCloud::GetMinBound] *)
Definition GetMinBound (pc : PointCloud) : Vector3d :=
  if negb (HasPoints pc) then Vec3 0 0 0
  else
    let itr_x := min_element (less_on 0) (points_ pc) in
    let itr_y := min_element (less_on 1) (points_ pc) in
    let itr_z := min_element (less_on 2) (points_ pc) in
    Vec3 (coeff (points_ pc !!! itr_x) 0)
         (coeff (points_ pc !!! itr_y) 1)
         (coeff (points_ pc !!! itr_z) 2).

(** [PointCloud::GetMaxBound] *)
Definition GetMaxBound (pc : PointCloud) : Vector3d :=
  if negb (HasPoints pc) then Vec3 0 0 0
  else
    let itr_x := max_element (less_on 0) (points_ pc) in
    let itr_y := max_element (less_on 1) (points_ pc) in
    let itr_z := max_element (less_on 2) (points_ pc) in
    Vec3 (coeff (points_ pc !!! itr_x) 0)
         (coeff (points_ pc !!! itr_y) 1)
         (coeff (points_ pc !!! itr_z) 2).

(** The coordinates of the points on one axis, and what it is to be the
    least or the greatest of them for the comparison [<] of the source: to
    occur among them with none of them strictly below (above).  On numbers
    other than NaN this is the minimum (maximum) for [<=]. *)
Definition axis (k : nat) (pts : list Vector3d) : list float :=
  map (λ p, coeff p k) pts.

Definition is_minimum (xs : list float) (m : float) : Prop :=
  m ∈ xs ∧ Forall (λ x, PrimFloat.ltb x m = false) xs.

Definition is_maximum (xs : list float) (m : float) : Prop :=
  m ∈ xs ∧ Forall (λ x, PrimFloat.ltb m x = false) xs.

(** A number that is neither infinite nor NaN. *)
Definition finite (x : float) : bool :=
  match Prim2SF x with
  | S754_zero _ | S754_finite _ _ _ => true
  | _ => false
  end.

Definition no_nan (xs : list float) : bool :=
  forallb (λ x, negb (PrimFloat.is_nan x)) xs.

(** ** [PointCloud::Transform] *)

(** Row times column, summed from left to right. *)
Definition dot4 (a b : Vector4d) : float :=
  (hx a * hx b + hy a * hy b + hz a * hz b + hw a * hw b)%float.

(** [transformation * v] *)
Definition mul4 (m : Matrix4d) (v : Vector4d) : Vector4d :=
  Vec4 (dot4 (q0 m) v) (dot4 (q1 m) v) (dot4 (q2 m) v) (dot4 (q3 m) v).

(** [v.block<3, 1>(0, 0)] *)
Definition block31 (v : Vector4d) : Vector3d := Vec3 (hx v) (hy v) (hz v).

(** [for (auto &x : v) x = body(x);] walks the positions of [v] and writes
    each element in place. *)
Fixpoint range_for_loop {A} (body : A → A) (i n : nat) (v : list A) : list A :=
  match n with
  | 0 => v
  | S n' =>
      match v !! i with
      | Some x => range_for_loop body (S i) n' (<[i := body x]> v)
      | None => v
      end
  end.

Definition range_for {A} (body : A → A) (v : list A) : list A :=
  range_for_loop body 0 (length v) v.

Definition transform_point (transformation : Matrix4d) (point : Vector3d) : Vector3d :=
  let new_point :=
    mul4 transformation (Vec4 (coeff point 0) (coeff point 1) (coeff point 2) 1) in
  block31 new_point.

Definition transform_normal (transformation : Matrix4d) (normal : Vector3d) : Vector3d :=
  let new_normal :=
    mul4 transformation (Vec4 (coeff normal 0) (coeff normal 1) (coeff normal 2) 0) in
  block31 new_normal.

Definition Transform (transformation : Matrix4d) (pc : PointCloud) : PointCloud :=
  let points' := range_for (transform_point transformation) (points_ pc) in
  let normals' := range_for (transform_normal transformation) (normals_ pc) in
  mkPointCloud points' normals' (colors_ pc).

(** The image of [v] by the 4x4 matrix [m] when [v] is given the
    homogeneous coordinate [w]: 1 for a position, 0 for a direction. *)
Definition homogeneous_image (m : Matrix4d) (w : float) (v : Vector3d) : Vector3d :=
  block31 (mul4 m (Vec4 (vx v) (vy v) (vz v) w)).

(** The image of [v] by the upper left 3x3 block of [m] alone. *)
Definition linear_image (m : Matrix4d) (v : Vector3d) : Vector3d :=
  Vec3 (hx (q0 m) * vx v + hy (q0 m) * vy v + hz (q0 m) * vz v)
       (hx (q1 m) * vx v + hy (q1 m) * vy v + hz (q1 m) * vz v)
       (hx (q2 m) * vx v + hy (q2 m) * vy v + hz (q2 m) * vz v).

(** The translation of [m] (its last column) holds finite numbers. *)
Definition finite_translation (m : Matrix4d) : bool :=
  finite (hw (q0 m)) && finite (hw (q1 m)) && finite (hw (q2 m)).

(** Two binary64 values that denote the same number: equal for [==] (which
    does not tell +0 from -0), or both NaN. *)
Definition same_number (a b : float) : bool :=
  PrimFloat.eqb a b || PrimFloat.is_nan a && PrimFloat.is_nan b.

Definition same_vector (a b : Vector3d) : bool :=
  same_number (vx a) (vx b) && same_number (vy a) (vy b) && same_number (vz a) (vz b).

(** ** [PointCloud::operator+=]

    [*this] and [cloud] are references: objects are heap cells, and the two
    addresses may be equal.  Every read of [cloud.normals_[i]] sees the heap
    as the writes so far have left it. *)

Abbreviation Heap := (gmap nat PointCloud).

Inductive Field := Points | Normals | Colors.

Definition get_field (f : Field) (pc : PointCloud) : list Vector3d :=
  match f with
  | Points => points_ pc
  | Normals => normals_ pc
  | Colors => colors_ pc
  end.

Definition set_field (f : Field) (v : list Vector3d) (pc : PointCloud) : PointCloud :=
  match f with
  | Points => mkPointCloud v (normals_ pc) (colors_ pc)
  | Normals => mkPointCloud (points_ pc) v (colors_ pc)
  | Colors => mkPointCloud (points_ pc) (normals_ pc) v
  end.

(** [v.resize(n)]: the first [n] elements are kept and the vector is filled
    up to [n] with new elements, [fresh i] at position [i]. *)
Definition vec_resize {A} (fresh : nat → A) (n : nat) (v : list A) : list A :=
  take n v ++ map fresh (seq (length v) (n - length v)).

(** [v[i] = x]; outside the vector the behaviour is undefined. *)
Definition vec_store {A} (v : list A) (i : nat) (x : A) : option (list A) :=
  if decide (i < length v) then Some (<[i := x]> v) else None.

Section Concatenate.
(** A default-constructed [Eigen::Vector3d] is not initialised: the new
    elements of a [resize] hold indeterminate values, [uninit f i] at
    position [i] of the vector [f]. *)
Variable uninit : Field → nat → Vector3d.

(** [this->f.resize(n)] *)
Definition resize_field (f : Field) (this : nat) (n : nat) (h : Heap) : option Heap :=
  a ← h !! this;
  Some (<[this := set_field f (vec_resize (uninit f) n (get_field f a)) a]> h).

(** [this->f.clear()] *)
Definition clear_field (f : Field) (this : nat) (h : Heap) : option Heap :=
  a ← h !! this;
  Some (<[this := set_field f [] a]> h).

(** [for (size_t i = 0; i < add_vert_num; i++)
       this->f[old_vert_num + i] = cloud.f[i];]
    with [n] iterations left. *)
Fixpoint copy_loop (f : Field) (this cloud : nat) (old_vert_num : nat)
    (i n : nat) (h : Heap) : option Heap :=
  match n with
  | 0 => Some h
  | S n' =>
      c ← h !! cloud;
      x ← get_field f c !! i;
      a ← h !! this;
      v ← vec_store (get_field f a) (old_vert_num + i) x;
      copy_loop f this cloud old_vert_num (S i) n' (<[this := set_field f v a]> h)
  end.

Definition operator_plus_assign (this cloud : nat) (h : Heap) : option Heap :=
  c ← h !! cloud;
  if IsEmpty c then Some h
  else
    a ← h !! this;
    let old_vert_num := length (points_ a) in
    let add_vert_num := length (points_ c) in
    let new_vert_num := old_vert_num + add_vert_num in
    h1 ← (if (negb (HasPoints a) || HasNormals a) && HasNormals c
          then h' ← resize_field Normals this new_vert_num h;
               copy_loop Normals this cloud old_vert_num 0 add_vert_num h'
          else clear_field Normals this h);
    a1 ← h1 !! this;
    c1 ← h1 !! cloud;
    h2 ← (if (negb (HasPoints a1) || HasColors a1) && HasColors c1
          then h' ← resize_field Colors this new_vert_num h1;
               copy_loop Colors this cloud old_vert_num 0 add_vert_num h'
          else clear_field Colors this h1);
    h3 ← resize_field Points this new_vert_num h2;
    copy_loop Points this cloud old_vert_num 0 add_vert_num h3.

(** [PointCloud::operator+]: a copy of [*this] is made at a fresh address
    [tmp], [cloud] is added to it, and the copy is the result. *)
Definition operator_plus (this cloud tmp : nat) (h : Heap) : option PointCloud :=
  a ← h !! this;
  h' ← operator_plus_assign tmp cloud (<[tmp := a]> h);
  h' !! tmp.
End Concatenate.

(** The concatenation that [A += B] is meant to compute for a non-empty [B],
    as a function of the two values: the points are appended; an attribute
    is appended when [B] has it and [A] has it or is empty, and dropped
    otherwise. *)
Definition concat_attr (keep : bool) (old_vert_num : nat) (a b : list Vector3d) : list Vector3d :=
  if keep then take old_vert_num a ++ b else [].

Definition concat_clouds (A B : PointCloud) : PointCloud :=
  let n := length (points_ A) in
  mkPointCloud
    (points_ A ++ points_ B)
    (concat_attr ((IsEmpty A || HasNormals A) && HasNormals B) n (normals_ A) (normals_ B))
    (concat_attr ((IsEmpty A || HasColors A) && HasColors B) n (colors_ A) (colors_ B)).

(** The presence rule as the specification states it, for every pair of
    clouds: after [A += B] the result has the attribute exactly when [B] has
    it and [A] had it or was empty.  [has] is [HasNormals] or [HasColors]. *)
Definition presence_rule (has : PointCloud → bool) (uninit : Field → nat → Vector3d)
    (this cloud : nat) (h : Heap) : Prop :=
  ∃ A B h' A',
    h !! this = Some A ∧ h !! cloud = Some B ∧
    operator_plus_assign uninit this cloud h = Some h' ∧ h' !! this = Some A' ∧
    has A' = has B && (has A || IsEmpty A).

(** ** Counted loops

    [for (int i = 0; i < (int)v.size(); i++)]: the size is converted to a
    32-bit [int] (modulo 2^32, into the signed range) and the body runs for
    [i] from 0 while [i] is below it. *)
Definition int_cast (n : Z) : Z :=
  let m := (n mod 2 ^ 32)%Z in
  if (m <? 2 ^ 31)%Z then m else (m - 2 ^ 32)%Z.

Definition INT_MAX : Z := 2 ^ 31 - 1.

Fixpoint for_loop {St} (body : nat → St → option St) (i n : nat) (s : St) : option St :=
  match n with
  | 0 => Some s
  | S n' => s' ← body i s; for_loop body (S i) n' s'
  end.

Definition for_int_below_size {St} (size : nat) (body : nat → St → option St) (s : St) : option St :=
  for_loop body 0 (Z.to_nat (int_cast (Z.of_nat size))) s.

(** ** Distances through a nearest-neighbour index *)

Definition msg_p2p : string :=
  "[ComputePointCloudToPointCloudDistance] Found a point without neighbors.".

Definition msg_nn : string :=
  "[ComputePointCloudNearestNeighborDistance] Found a point without neighbors.".

(** What a call [kdtree.SearchKNN(query, knn, indices, distance2)] leaves:
    the returned count and the two vectors passed by reference. *)
Record KnnResult := mkKnn {
  knn_count : Z;
  knn_indices : list Z;
  knn_distance2 : list float
}.

Section Distances.
(** [KDTreeFlann] is not among the sources: the index built over a point
    sequence is a parameter, [SearchKNN geometry query knn indices
    distance2]. *)
Variable SearchKNN : list Vector3d → Vector3d → Z → list Z → list float → KnnResult.

(** State of the loops: the output vector and the diagnostics printed by
    [utility::PrintDebug].  The loops are OpenMP parallel loops whose turns
    write distinct slots and read shared data only; they are run here in the
    order of the indices, which is also the order given to the diagnostics. *)
Definition ComputePointCloudToPointCloudDistance (source target : PointCloud)
    : option (list float * list string) :=
  let distances := replicate (length (points_ source)) 0%float in
  let kdtree := points_ target in
  for_int_below_size (length (points_ source))
    (λ i '(distances, console),
      let indices := replicate 1 0%Z in
      let dists := replicate 1 0%float in
      query ← points_ source !! i;
      let r := SearchKNN kdtree query 1 indices dists in
      if (knn_count r =? 0)%Z then
        distances' ← vec_store distances i 0%float;
        Some (distances', console ++ [msg_p2p])
      else
        d ← knn_distance2 r !! 0;
        distances' ← vec_store distances i (PrimFloat.sqrt d);
        Some (distances', console))
    (distances, []).

Definition ComputePointCloudNearestNeighborDistance (input : PointCloud)
    : option (list float * list string) :=
  let nn_dis := replicate (length (points_ input)) 0%float in
  let kdtree := points_ input in
  for_int_below_size (length (points_ input))
    (λ i '(nn_dis, console),
      let indices := replicate 2 0%Z in
      let dists := replicate 2 0%float in
      query ← points_ input !! i;
      let r := SearchKNN kdtree query 2 indices dists in
      if (knn_count r <=? 1)%Z then
        nn_dis' ← vec_store nn_dis i 0%float;
        Some (nn_dis', console ++ [msg_nn])
      else
        d ← knn_distance2 r !! 1;
        nn_dis' ← vec_store nn_dis i (PrimFloat.sqrt d);
        Some (nn_dis', console))
    (nn_dis, []).

(** The outcome per point, as the specification words it. *)
Definition nearest_target_distance (target : list Vector3d) (p : Vector3d) : float * list string :=
  let r := SearchKNN target p 1 [0%Z] [0%float] in
  if (knn_count r =? 0)%Z then (0%float, [msg_p2p])
  else (PrimFloat.sqrt (nth 0 (knn_distance2 r) 0%float), []).

Definition nearest_other_distance (cloud : list Vector3d) (p : Vector3d) : float * list string :=
  let r := SearchKNN cloud p 2 [0%Z; 0%Z] [0%float; 0%float] in
  if (knn_count r <? 2)%Z then (0%float, [msg_nn])
  else (PrimFloat.sqrt (nth 1 (knn_distance2 r) 0%float), []).
End Distances.

(** The squared Euclidean distance of two points. *)
Definition squared_distance (a b : Vector3d) : float :=
  let dx := (vx a - vx b)%float in
  let dy := (vy a - vy b)%float in
  let dz := (vz a - vz b)%float in
  (dx * dx + dy * dy + dz * dz)%float.

(** Insertion sort on the squared distance. *)
Fixpoint insert_by_distance (e : Z * float) (l : list (Z * float)) : list (Z * float) :=
  match l with
  | [] => [e]
  | e' :: l' =>
      if PrimFloat.ltb (snd e) (snd e') then e :: l
      else e' :: insert_by_distance e l'
  end.

Definition sort_by_distance (l : list (Z * float)) : list (Z * float) :=
  foldr insert_by_distance [] l.

(** Modelled from the spec: [KDTreeFlann::SearchKNN] is not among the
    sources.  The spatial index answers a query with the [knn] indexed points
    nearest to it, as their count, their positions and their squared
    distances in ascending order; the count is smaller than [knn] when the
    index holds fewer points.  This is that search done by brute force: all
    squared distances, sorted, the first [knn] kept. *)
Definition brute_force_knn (geometry : list Vector3d) (query : Vector3d) (knn : Z)
    (indices : list Z) (distance2 : list float) : KnnResult :=
  let all := imap (λ i p, (Z.of_nat i, squared_distance query p)) geometry in
  let best := take (Z.to_nat knn) (sort_by_distance all) in
  mkKnn (Z.of_nat (length best)) (map fst best) (map snd best).

(** The contract of an index: for a query of [knn] >= 0 neighbours it
    reports the count and the ascending squared distances that the search
    above finds (which neighbour it names among equally distant ones is left
    open). *)
Definition knn_contract
    (SearchKNN : list Vector3d → Vector3d → Z → list Z → list float → KnnResult) : Prop :=
  ∀ geometry query knn indices distance2,
    (0 ≤ knn)%Z →
    knn_count (SearchKNN geometry query knn indices distance2)
    = knn_count (brute_force_knn geometry query knn indices distance2) ∧
    knn_distance2 (SearchKNN geometry query knn indices distance2)
    = knn_distance2 (brute_force_knn geometry query knn indices distance2).

Definition finite_vector (p : Vector3d) : bool :=
  finite (vx p) && finite (vy p) && finite (vz p).

(** ** Mean and covariance *)

(** [Eigen::Matrix<double, 9, 1>] *)
Record Vector9d := Vec9 {
  c0 : float; c1 : float; c2 : float;
  c3 : float; c4 : float; c5 : float;
  c6 : float; c7 : float; c8 : float
}.

(** One turn of the accumulation loop. *)
Definition accumulate (cumulants : Vector9d) (point : Vector3d) : Vector9d :=
  Vec9 (c0 cumulants + coeff point 0)
       (c1 cumulants + coeff point 1)
       (c2 cumulants + coeff point 2)
       (c3 cumulants + coeff point 0 * coeff point 0)
       (c4 cumulants + coeff point 0 * coeff point 1)
       (c5 cumulants + coeff point 0 * coeff point 2)
       (c6 cumulants + coeff point 1 * coeff point 1)
       (c7 cumulants + coeff point 1 * coeff point 2)
       (c8 cumulants + coeff point 2 * coeff point 2).

(** [cumulants /= d] *)
Definition div9 (c : Vector9d) (d : float) : Vector9d :=
  Vec9 (c0 c / d) (c1 c / d) (c2 c / d) (c3 c / d) (c4 c / d)
       (c5 c / d) (c6 c / d) (c7 c / d) (c8 c / d).

(** [(double)n] for a [size_t]; a vector of 24-byte elements has fewer than
    2^63 of them. *)
Definition double_of_size (n : nat) : float :=
  PrimFloat.of_uint63 (Uint63.of_Z (Z.of_nat n)).

Definition ComputePointCloudMeanAndCovariance (input : PointCloud) : Vector3d * Matrix3d :=
  if IsEmpty input then (Vector3d_Zero, Matrix3d_Identity)
  else
    let cumulants := Vec9 0 0 0 0 0 0 0 0 0 in
    let cumulants := fold_left accumulate (points_ input) cumulants in
    let cumulants := div9 cumulants (double_of_size (length (points_ input))) in
    let mean := Vec3 (c0 cumulants) (c1 cumulants) (c2 cumulants) in
    let cov00 := (c3 cumulants - c0 cumulants * c0 cumulants)%float in
    let cov11 := (c6 cumulants - c1 cumulants * c1 cumulants)%float in
    let cov22 := (c8 cumulants - c2 cumulants * c2 cumulants)%float in
    let cov01 := (c4 cumulants - c0 cumulants * c1 cumulants)%float in
    let cov10 := cov01 in
    let cov02 := (c5 cumulants - c0 cumulants * c2 cumulants)%float in
    let cov20 := cov02 in
    let cov12 := (c7 cumulants - c1 cumulants * c2 cumulants)%float in
    let cov21 := cov12 in
    (mean, Mat3 (Vec3 cov00 cov01 cov02) (Vec3 cov10 cov11 cov12) (Vec3 cov20 cov21 cov22)).

(** The moments as the specification names them: the sums run over the
    points in order, starting from zero. *)
Definition sum_of (f : Vector3d → float) (pts : list Vector3d) : float :=
  fold_left PrimFloat.add (map f pts) 0%float.

Definition first_moment (pts : list Vector3d) (i : nat) : float :=
  (sum_of (λ p, coeff p i) pts / double_of_size (length pts))%float.

Definition second_moment (pts : list Vector3d) (i j : nat) : float :=
  (sum_of (λ p, coeff p i * coeff p j)%float pts / double_of_size (length pts))%float.

Definition covariance_entry (pts : list Vector3d) (i j : nat) : float :=
  (second_moment pts i j - first_moment pts i * first_moment pts j)%float.

(** ** The device mirrors (CUDA build)

    The CUDA runtime is outside the program.  A device is modelled by the
    buffers it holds, the next address it hands out, the statuses it will
    answer to the coming calls ([cudaSuccess] once the list is used up) and
    the calls received so far. *)

Inductive cudaError_t := cudaSuccess | cudaErrorCode (code : positive).

(** The three members a [double **d_data] designates. *)
Inductive Mirror := d_points | d_normals | d_colors.

#[global] Instance Mirror_eq_dec : EqDecision Mirror.
Proof. solve_decision. Defined.

Inductive ApiCall :=
  | CudaFree (devPtr : nat)
  | CudaMalloc (slot : Mirror) (size : nat)
  | CudaMemcpy (dst : option nat) (count : nat)
  | Printf (status : cudaError_t).

Record Buffer := mkBuffer { buf_size : nat; buf_data : option (list Vector3d) }.

Record Device := mkDevice {
  answers : list cudaError_t;
  fresh : nat;
  buffers : gmap nat Buffer;
  calls : list ApiCall
}.

(** A point cloud with its device handles ([None] is [NULL]) and the device. *)
Record CudaCloud := mkCudaCloud {
  host : PointCloud;
  d_points_ : option nat;
  d_normals_ : option nat;
  d_colors_ : option nat;
  device : Device
}.

Definition is_success (st : cudaError_t) : bool :=
  match st with cudaSuccess => true | _ => false end.

Definition handle (m : Mirror) (w : CudaCloud) : option nat :=
  match m with
  | d_points => d_points_ w
  | d_normals => d_normals_ w
  | d_colors => d_colors_ w
  end.

Definition set_handle (m : Mirror) (p : option nat) (w : CudaCloud) : CudaCloud :=
  match m with
  | d_points => mkCudaCloud (host w) p (d_normals_ w) (d_colors_ w) (device w)
  | d_normals => mkCudaCloud (host w) (d_points_ w) p (d_colors_ w) (device w)
  | d_colors => mkCudaCloud (host w) (d_points_ w) (d_normals_ w) p (device w)
  end.

Definition set_device (d : Device) (w : CudaCloud) : CudaCloud :=
  mkCudaCloud (host w) (d_points_ w) (d_normals_ w) (d_colors_ w) d.

(** The status the runtime answers to a call, which is recorded. *)
Definition answer (c : ApiCall) (d : Device) : cudaError_t * Device :=
  match answers d with
  | [] => (cudaSuccess, mkDevice [] (fresh d) (buffers d) (calls d ++ [c]))
  | st :: rest => (st, mkDevice rest (fresh d) (buffers d) (calls d ++ [c]))
  end.

(** [cudaFree(devPtr)] *)
Definition cudaFree (devPtr : nat) (w : CudaCloud) : cudaError_t * CudaCloud :=
  let '(st, d) := answer (CudaFree devPtr) (device w) in
  if is_success st
  then (st, set_device (mkDevice (answers d) (fresh d) (delete devPtr (buffers d)) (calls d)) w)
  else (st, set_device d w).

(** [cudaMalloc(d_data, size)]: on success the handle receives a
    fresh address; on failure it is left as it was. *)
Definition cudaMalloc (slot : Mirror) (size : nat) (w : CudaCloud) : cudaError_t * CudaCloud :=
  let '(st, d) := answer (CudaMalloc slot size) (device w) in
  if is_success st
  then
    let p := fresh d in
    let d' := mkDevice (answers d) (S p) (<[p := mkBuffer size None]> (buffers d)) (calls d) in
    (st, set_handle slot (Some p) (set_device d' w))
  else (st, set_device d w).

(** [cudaMemcpy(dst, src, count, cudaMemcpyHostToDevice)]; [dst] is the
    value of the handle, [None] when it is null. *)
Definition cudaMemcpy (dst : option nat) (src : list Vector3d) (count : nat) (w : CudaCloud)
    : cudaError_t * CudaCloud :=
  let '(st, d) := answer (CudaMemcpy dst count) (device w) in
  match dst with
  | Some p =>
      if is_success st
      then
        let d' := mkDevice (answers d) (fresh d)
                    (<[p := mkBuffer count (Some src)]> (buffers d)) (calls d) in
        (st, set_device d' w)
      else (st, set_device d w)
  | None => (st, set_device d w)
  end.

(** [printf("%s", cudaGetErrorString(status))] *)
Definition printf (status : cudaError_t) (w : CudaCloud) : CudaCloud :=
  let d := device w in
  set_device (mkDevice (answers d) (fresh d) (buffers d) (calls d ++ [Printf status])) w.

Definition sizeof_Vector3d : nat := 24.

(** The value of a call of a [bool] function: [Some b] when a [return]
    statement was reached, [None] when control reached the closing brace
    without one (the value is then undefined). *)
Definition Returned := option bool.

(** [bool PointCloud::UpdateDeviceMemory(double **d_data, const vector<Eigen::Vector3d> &data)] *)
Definition UpdateDeviceMemory_data (d_data : Mirror) (data : list Vector3d) (w : CudaCloud)
    : Returned * CudaCloud :=
  let allocate_and_copy (w : CudaCloud) : Returned * CudaCloud :=
    let '(status, w) := cudaMalloc d_data (length data * sizeof_Vector3d) w in
    if negb (is_success status) then (Some false, w)
    else
      let size := length data * sizeof_Vector3d in
      let '(status, w) := cudaMemcpy (handle d_data w) data size w in
      if negb (is_success status) then (Some true, printf status w)
      else (None, w) in
  match handle d_data w with
  | Some p =>
      let '(status, w) := cudaFree p w in
      if negb (is_success status) then (Some false, w)
      else allocate_and_copy (set_handle d_data None w)
  | None => allocate_and_copy w
  end.

Definition UpdateDevicePoints (w : CudaCloud) : Returned * CudaCloud :=
  UpdateDeviceMemory_data d_points (points_ (host w)) w.

Definition UpdateDeviceNormals (w : CudaCloud) : Returned * CudaCloud :=
  UpdateDeviceMemory_data d_normals (normals_ (host w)) w.

Definition UpdateDeviceColors (w : CudaCloud) : Returned * CudaCloud :=
  UpdateDeviceMemory_data d_colors (colors_ (host w)) w.

(** [a() && b()]: [b] is called only when [a] has returned [true]; the
    conjunction of an undefined value is undefined. *)
Definition and_also {St} (a b : St → Returned * St) (s : St) : Returned * St :=
  match a s with
  | (Some true, s') => b s'
  | (r, s') => (r, s')
  end.

(** [bool PointCloud::UpdateDeviceMemory()] *)
Definition UpdateDeviceMemory : CudaCloud → Returned * CudaCloud :=
  and_also (and_also UpdateDevicePoints UpdateDeviceNormals) UpdateDeviceColors.

(** [bool PointCloud::ReleaseDeviceMemory(double **d_data)] *)
Definition ReleaseDeviceMemory_data (d_data : Mirror) (w : CudaCloud) : Returned * CudaCloud :=
  match handle d_data w with
  | None => (Some true, w)
  | Some p =>
      let '(status, w) := cudaFree p w in
      if negb (is_success status) then (Some false, w)
      else (None, set_handle d_data None w)
  end.

Definition ReleaseDevicePoints : CudaCloud → Returned * CudaCloud :=
  ReleaseDeviceMemory_data d_points.

Definition ReleaseDeviceNormals : CudaCloud → Returned * CudaCloud :=
  ReleaseDeviceMemory_data d_normals.

Definition ReleaseDeviceColors : CudaCloud → Returned * CudaCloud :=
  ReleaseDeviceMemory_data d_colors.

(** [bool PointCloud::ReleaseDeviceMemory()] *)
Definition ReleaseDeviceMemory : CudaCloud → Returned * CudaCloud :=
  and_also (and_also ReleaseDevicePoints ReleaseDeviceNormals) ReleaseDeviceColors.

(** [a & b] on two outcomes that have both been computed. *)
Definition and_outcomes (a b : Returned) : Returned :=
  match a, b with
  | Some x, Some y => Some (x && y)
  | _, _ => None
  end.

(** The refresh of all three mirrors as the specification words it: every
    refresh is run, whatever the earlier ones returned, and the result is
    the conjunction of the three outcomes. *)
Definition refresh_all_three (w : CudaCloud) : Returned * CudaCloud :=
  let '(p, w1) := UpdateDevicePoints w in
  let '(n, w2) := UpdateDeviceNormals w1 in
  let '(c, w3) := UpdateDeviceColors w2 in
  (and_outcomes (and_outcomes p n) c, w3).

(** ** Mahalanobis distance *)

(** [a - b] on vectors *)
Definition sub3 (a b : Vector3d) : Vector3d :=
  Vec3 (vx a - vx b) (vy a - vy b) (vz a - vz b).

(** [p.transpose() * m * p]: the row vector [p.transpose() * m] first, then
    its product with [p]; sums run from left to right. *)
Definition quadratic_form (m : Matrix3d) (p : Vector3d) : float :=
  let row :=
    Vec3 (vx p * coeff2 m 0 0 + vy p * coeff2 m 1 0 + vz p * coeff2 m 2 0)
         (vx p * coeff2 m 0 1 + vy p * coeff2 m 1 1 + vz p * coeff2 m 2 1)
         (vx p * coeff2 m 0 2 + vy p * coeff2 m 1 2 + vz p * coeff2 m 2 2) in
  (vx row * vx p + vy row * vy p + vz row * vz p)%float.

Section Mahalanobis.
(** [Eigen::Matrix3d::inverse] belongs to the Eigen library and is a
    parameter. *)
Variable inverse : Matrix3d → Matrix3d.

Definition ComputePointCloudMahalanobisDistance (input : PointCloud) : option (list float) :=
  let mahalanobis := replicate (length (points_ input)) 0%float in
  let '(mean, covariance) := ComputePointCloudMeanAndCovariance input in
  let cov_inv := inverse covariance in
  for_int_below_size (length (points_ input))
    (λ i mahalanobis,
      x ← points_ input !! i;
      let p := sub3 x mean in
      vec_store mahalanobis i (PrimFloat.sqrt (quadratic_form cov_inv p)))
    mahalanobis.

(** The distance of one point, given the mean and the covariance of its
    cloud. *)
Definition mahalanobis_of (pts : list Vector3d) (x : Vector3d) : float :=
  let '(mean, covariance) := ComputePointCloudMeanAndCovariance (mkPointCloud pts [] []) in
  PrimFloat.sqrt (quadratic_form (inverse covariance) (sub3 x mean)).
End Mahalanobis.

(** The value of [A + B]: [A] when [B] has no points, their concatenation
    otherwise. *)
Definition plus_value (A B : PointCloud) : PointCloud :=
  if IsEmpty B then A else concat_clouds A B.

(** ** Invariants *)

(** The data model: an attribute sequence is empty or as long as the point
    sequence. *)
Definition well_formed (pc : PointCloud) : Prop :=
  (length (normals_ pc) = 0 ∨ length (normals_ pc) = length (points_ pc)) ∧
  (length (colors_ pc) = 0 ∨ length (colors_ pc) = length (points_ pc)).

(** [lo <= p <= hi] on every axis. *)
Definition inside_box (lo hi p : Vector3d) : bool :=
  PrimFloat.leb (vx lo) (vx p) && PrimFloat.leb (vx p) (vx hi) &&
  PrimFloat.leb (vy lo) (vy p) && PrimFloat.leb (vy p) (vy hi) &&
  PrimFloat.leb (vz lo) (vz p) && PrimFloat.leb (vz p) (vz hi).

(** [lo <= hi] on every axis. *)
Definition box_ordered (lo hi : Vector3d) : bool :=
  PrimFloat.leb (vx lo) (vx hi) && PrimFloat.leb (vy lo) (vy hi) && PrimFloat.leb (vz lo) (vz hi).

(** The three coordinates of [a] and of [b] are NaN on the same axes. *)
Definition nan_on_same_axes (a b : Vector3d) : bool :=
  Bool.eqb (PrimFloat.is_nan (vx a)) (PrimFloat.is_nan (vx b))
  && Bool.eqb (PrimFloat.is_nan (vy a)) (PrimFloat.is_nan (vy b))
  && Bool.eqb (PrimFloat.is_nan (vz a)) (PrimFloat.is_nan (vz b)).

(** The number of turns of a loop [for (int i = 0; i < (int)size; i++)]. *)
Definition turns (size : nat) : nat := Z.to_nat (int_cast (Z.of_nat size)).

(** The status the runtime answers to the [i]-th of the calls that come
    next, counted from zero. *)
Definition coming_status (w : CudaCloud) (i : nat) : cudaError_t :=
  nth i (answers (device w)) cudaSuccess.

(** The handles and the device agree: every handle that is set names a
    buffer of the device, no two handles name the same buffer, and every
    buffer lies below the next address the device hands out. *)
Definition device_ok (w : CudaCloud) : Prop :=
  (∀ m p, handle m w = Some p → is_Some (buffers (device w) !! p)) ∧
  (∀ m1 m2 p, handle m1 w = Some p → handle m2 w = Some p → m1 = m2) ∧
  (∀ p, is_Some (buffers (device w) !! p) → p < fresh (device w)).

(** ** Sample data *)

Definition empty_cloud : PointCloud := mkPointCloud [] [] [].

(** One point with its normal and its color. *)
Definition full_cloud : PointCloud :=
  mkPointCloud [Vec3 1 2 3] [Vec3 0 0 1] [Vec3 0.5 0.5 0.5].

(** Two points with normals, no colors. *)
Definition normals_cloud : PointCloud :=
  mkPointCloud [Vec3 4 5 6; Vec3 7 8 9] [Vec3 1 0 0; Vec3 0 1 0] [].

(** What the new elements of a resize happen to hold. *)
Definition stale : Field → nat → Vector3d := λ _ _, Vec3 9 9 9.

(** [full_cloud] at address 0 and [cloud] at address 1. *)
Definition heap_of (cloud : PointCloud) : Heap := <[1 := cloud]> {[0 := full_cloud]}.

Definition planar_source : PointCloud :=
  mkPointCloud [Vec3 0 0 0; Vec3 3 4 0] [] [].

Definition unit_target : PointCloud := mkPointCloud [Vec3 1 0 0] [] [].

Definition coincident_cloud : PointCloud :=
  mkPointCloud [Vec3 1 2 3; Vec3 1 2 3] [] [].

(** [full_cloud] with no mirror yet, on a device that answers the coming
    calls with [sts]. *)
Definition fresh_cuda (sts : list cudaError_t) : CudaCloud :=
  mkCudaCloud full_cloud None None None (mkDevice sts 1 ∅ []).

(** [full_cloud] with a points mirror at address 7, on a device that answers
    the coming calls with [sts]. *)
Definition mirrored_cuda (sts : list cudaError_t) : CudaCloud :=
  mkCudaCloud full_cloud (Some 7) None None
    (mkDevice sts 8 {[7 := mkBuffer 24 (Some [Vec3 1 2 3])]} []).

Definition out_of_memory : cudaError_t := cudaErrorCode 2.

(** The four points of the specification's scenario. *)
Definition four_points : PointCloud :=
  mkPointCloud [Vec3 0 0 0; Vec3 1 0 0; Vec3 0 1 0; Vec3 0 0 1] [] [].

(** [full_cloud], [normals_cloud] and [planar_source] at addresses 0, 1, 2. *)
Definition three_clouds : Heap := <[2 := planar_source]> (heap_of normals_cloud).

(** * Properties *)

(** ** The order of binary64 numbers *)
Module FloatOrder.
Lemma SFltb_irrefl x : SFltb x x = false.
Proof.
  unfold SFltb.
  destruct x as [s | s | | s m e]; cbn; try destruct s; try reflexivity;
    rewrite Z.compare_refl, Pos.compare_cont_refl; reflexivity.
Qed.

Ltac cmp_cases :=
  repeat match goal with
  | |- context [Z.compare ?a ?b] => destruct (Z.compare_spec a b); subst
  | H : context [Z.compare ?a ?b] |- _ => destruct (Z.compare_spec a b); subst
  | |- context [Pos.compare_cont Eq ?a ?b] =>
      change (Pos.compare_cont Eq a b) with (Pos.compare a b);
      destruct (Pos.compare_spec a b); subst
  | H : context [Pos.compare_cont Eq ?a ?b] |- _ =>
      change (Pos.compare_cont Eq a b) with (Pos.compare a b) in H;
      destruct (Pos.compare_spec a b); subst
  end.

Lemma SFltb_trans x y z : SFltb x y = true → SFltb y z = true → SFltb x z = true.
Proof.
  unfold SFltb.
  destruct x as [sx | sx | | sx mx ex], y as [sy | sy | | sy my ey],
    z as [sz | sz | | sz mz ez];
    cbn; try destruct sx; try destruct sy; try destruct sz;
    try discriminate; try reflexivity;
    intros H1 H2; cmp_cases; cbn in *; try discriminate; try reflexivity; lia.
Qed.

(** Two numbers of which neither is NaN are comparable. *)
Lemma SFleb_total x y :
  SFeqb x x = true → SFeqb y y = true → SFltb x y = false → SFleb y x = true.
Proof.
  unfold SFltb, SFleb, SFeqb.
  destruct x as [sx | sx | | sx mx ex], y as [sy | sy | | sy my ey];
    cbn; try destruct sx; try destruct sy;
    try discriminate; try reflexivity;
    intros _ _ H; cmp_cases; cbn in *; try discriminate; try reflexivity; lia.
Qed.

Lemma ltb_irrefl (x : float) : PrimFloat.ltb x x = false.
Proof. rewrite ltb_spec. apply SFltb_irrefl. Qed.

Lemma ltb_trans (x y z : float) :
  PrimFloat.ltb x y = true → PrimFloat.ltb y z = true → PrimFloat.ltb x z = true.
Proof. rewrite !ltb_spec. apply SFltb_trans. Qed.

Lemma leb_total (x y : float) :
  PrimFloat.is_nan x = false → PrimFloat.is_nan y = false →
  PrimFloat.ltb x y = false → PrimFloat.leb y x = true.
Proof.
  unfold PrimFloat.is_nan. rewrite ltb_spec, leb_spec, !FloatAxioms.eqb_spec.
  intros Hx Hy. apply SFleb_total; [apply negb_false_iff, Hx | apply negb_false_iff, Hy].
Qed.

Lemma SFmul_comm x y : SFmul prec emax x y = SFmul prec emax y x.
Proof.
  destruct x as [sx | sx | | sx mx ex], y as [sy | sy | | sy my ey]; cbn;
    rewrite ?(xorb_comm sx sy); try reflexivity.
  rewrite (Pos.mul_comm mx my), (Z.add_comm ex ey). reflexivity.
Qed.

Lemma mul_comm (x y : float) : (x * y = y * x)%float.
Proof. apply Prim2SF_inj. rewrite !mul_spec. apply SFmul_comm. Qed.

(** Adding the product of a finite number and zero does not change the
    number denoted. *)
Lemma SF_add_zero_product s t :
  match t with S754_zero _ | S754_finite _ _ _ => True | _ => False end →
  let r := SFadd prec emax s (SFmul prec emax t (S754_zero false)) in
  SFeqb r s || negb (SFeqb r r) && negb (SFeqb s s) = true.
Proof.
  unfold SFeqb.
  destruct t as [st | st | | st mt et]; try done; intros _;
    destruct s as [ss | ss | | ss ms es]; cbn;
    try destruct ss; try destruct st; cbn; try reflexivity;
    rewrite Z.compare_refl, Pos.compare_cont_refl; reflexivity.
Qed.

Lemma add_zero_product (s t : float) :
  finite t = true → same_number (s + t * 0) s = true.
Proof.
  unfold finite, same_number, PrimFloat.is_nan. intros Ht.
  rewrite !FloatAxioms.eqb_spec, add_spec, mul_spec.
  apply SF_add_zero_product. by destruct (Prim2SF t).
Qed.

Lemma sub_diag (x : float) : finite x = true → (x - x)%float = 0%float.
Proof.
  intros Hx. apply Prim2SF_inj. rewrite sub_spec. unfold finite in Hx.
  destruct (Prim2SF x) as [s | s | | s m e]; try discriminate.
  - destruct s; reflexivity.
  - unfold SF64sub, SFsub. rewrite Z.sub_diag. reflexivity.
Qed.
End FloatOrder.

(** ** [std::min_element] and [std::max_element] under a strict order *)
Section AlgorithmFacts.
Context {A : Type} (comp : A → A → bool).
Hypothesis comp_irrefl : ∀ x, comp x x = false.
Hypothesis comp_trans : ∀ x y z, comp x y = true → comp y z = true → comp x z = true.

Lemma min_element_loop_least rest : ∀ pre sv smallest,
  pre !! smallest = Some sv →
  Forall (λ x, comp x sv = false) pre →
  ∃ v, (pre ++ rest) !! min_element_loop comp smallest sv (length pre) rest = Some v
       ∧ Forall (λ x, comp x v = false) (pre ++ rest).
Proof.
  induction rest as [|x rest IH]; intros pre sv smallest Hs Hall; simpl.
  - exists sv. by rewrite app_nil_r.
  - specialize (IH (pre ++ [x])).
    rewrite length_app, Nat.add_1_r, <- app_assoc in IH. simpl in IH.
    destruct (comp x sv) eqn:Hc; apply IH.
    + rewrite lookup_app_r, Nat.sub_diag; done.
    + apply Forall_app; split; [|by repeat constructor].
      eapply Forall_impl; [exact Hall|]. intros y Hy. simpl in Hy.
      destruct (comp y x) eqn:E; [|done].
      by rewrite (comp_trans _ _ _ E Hc) in Hy.
    + rewrite lookup_app_l; [done | by eapply lookup_lt_Some].
    + apply Forall_app; split; [done | by repeat constructor].
Qed.

Lemma min_element_least x rest :
  ∃ v, (x :: rest) !! min_element comp (x :: rest) = Some v
       ∧ Forall (λ y, comp y v = false) (x :: rest).
Proof.
  apply (min_element_loop_least rest [x] x 0); [done | by repeat constructor].
Qed.

Lemma max_element_loop_greatest rest : ∀ pre lv largest,
  pre !! largest = Some lv →
  Forall (λ x, comp lv x = false) pre →
  ∃ v, (pre ++ rest) !! max_element_loop comp largest lv (length pre) rest = Some v
       ∧ Forall (λ x, comp v x = false) (pre ++ rest).
Proof.
  induction rest as [|x rest IH]; intros pre lv largest Hs Hall; simpl.
  - exists lv. by rewrite app_nil_r.
  - specialize (IH (pre ++ [x])).
    rewrite length_app, Nat.add_1_r, <- app_assoc in IH. simpl in IH.
    destruct (comp lv x) eqn:Hc; apply IH.
    + rewrite lookup_app_r, Nat.sub_diag; done.
    + apply Forall_app; split; [|by repeat constructor].
      eapply Forall_impl; [exact Hall|]. intros y Hy. simpl in Hy.
      destruct (comp x y) eqn:E; [|done].
      by rewrite (comp_trans _ _ _ Hc E) in Hy.
    + rewrite lookup_app_l; [done | by eapply lookup_lt_Some].
    + apply Forall_app; split; [done | by repeat constructor].
Qed.

Lemma max_element_greatest x rest :
  ∃ v, (x :: rest) !! max_element comp (x :: rest) = Some v
       ∧ Forall (λ y, comp v y = false) (x :: rest).
Proof.
  apply (max_element_loop_greatest rest [x] x 0); [done | by repeat constructor].
Qed.
End AlgorithmFacts.

Lemma less_on_irrefl k x : less_on k x x = false.
Proof. apply FloatOrder.ltb_irrefl. Qed.

Lemma less_on_trans k x y z :
  less_on k x y = true → less_on k y z = true → less_on k x z = true.
Proof. apply FloatOrder.ltb_trans. Qed.

Lemma min_on_axis k p ps :
  is_minimum (axis k (p :: ps))
    (coeff ((p :: ps) !!! min_element (less_on k) (p :: ps)) k).
Proof.
  destruct (min_element_least (less_on k) (less_on_irrefl k) (less_on_trans k) p ps)
    as (v & Hv & Hall).
  rewrite (list_lookup_total_correct _ _ _ Hv). split.
  - apply list_elem_of_fmap. exists v. split; [done | by eapply list_elem_of_lookup_2].
  - unfold axis. apply Forall_fmap. exact Hall.
Qed.

Lemma max_on_axis k p ps :
  is_maximum (axis k (p :: ps))
    (coeff ((p :: ps) !!! max_element (less_on k) (p :: ps)) k).
Proof.
  destruct (max_element_greatest (less_on k) (less_on_irrefl k) (less_on_trans k) p ps)
    as (v & Hv & Hall).
  rewrite (list_lookup_total_correct _ _ _ Hv). split.
  - apply list_elem_of_fmap. exists v. split; [done | by eapply list_elem_of_lookup_2].
  - unfold axis. apply Forall_fmap. exact Hall.
Qed.

(** On numbers other than NaN, [is_minimum] and [is_maximum] are the
    bounds for [<=]. *)
Lemma no_nan_elem xs x : no_nan xs = true → x ∈ xs → PrimFloat.is_nan x = false.
Proof.
  unfold no_nan. rewrite forallb_forall. intros H Hx.
  apply negb_true_iff, H, list_elem_of_In, Hx.
Qed.

Lemma minimum_is_lower_bound xs m :
  no_nan xs = true → is_minimum xs m → Forall (λ x, PrimFloat.leb m x = true) xs.
Proof.
  intros Hn [Hm Hall]. apply Forall_forall. intros x Hx.
  rewrite Forall_forall in Hall.
  apply FloatOrder.leb_total; eauto using no_nan_elem.
Qed.

Lemma maximum_is_upper_bound xs m :
  no_nan xs = true → is_maximum xs m → Forall (λ x, PrimFloat.leb x m = true) xs.
Proof.
  intros Hn [Hm Hall]. apply Forall_forall. intros x Hx.
  rewrite Forall_forall in Hall.
  apply FloatOrder.leb_total; eauto using no_nan_elem.
Qed.

(** C8: on a cloud without points [GetMinBound] and [GetMaxBound] return the
    zero vector; on a cloud with points each coordinate of the result is,
    for its own axis, the least (greatest) coordinate of the points on that
    axis; the corner returned need not be one of the points. *)
Theorem bounds_are_axiswise_extrema :
  (∀ normals colors,
     GetMinBound (mkPointCloud [] normals colors) = Vec3 0 0 0 ∧
     GetMaxBound (mkPointCloud [] normals colors) = Vec3 0 0 0) ∧
  (∀ p ps normals colors,
     let pc := mkPointCloud (p :: ps) normals colors in
     (is_minimum (axis 0 (p :: ps)) (coeff (GetMinBound pc) 0) ∧
      is_minimum (axis 1 (p :: ps)) (coeff (GetMinBound pc) 1) ∧
      is_minimum (axis 2 (p :: ps)) (coeff (GetMinBound pc) 2)) ∧
     (is_maximum (axis 0 (p :: ps)) (coeff (GetMaxBound pc) 0) ∧
      is_maximum (axis 1 (p :: ps)) (coeff (GetMaxBound pc) 1) ∧
      is_maximum (axis 2 (p :: ps)) (coeff (GetMaxBound pc) 2))) ∧
  (let pc := mkPointCloud [Vec3 1 0 0; Vec3 0 1 0] [] [] in
   GetMinBound pc = Vec3 0 0 0 ∧ (GetMinBound pc ∉ points_ pc) ∧
   GetMaxBound pc = Vec3 1 1 0 ∧ (GetMaxBound pc ∉ points_ pc)).
Proof.
  split; [by intros | split].
  - intros p ps normals colors pc.
    unfold GetMinBound, GetMaxBound, pc; cbn [HasPoints points_ length Nat.eqb negb coeff vx vy vz].
    repeat split; first [apply (min_on_axis 0) | apply (min_on_axis 1) | apply (min_on_axis 2)
                        | apply (max_on_axis 0) | apply (max_on_axis 1) | apply (max_on_axis 2)].
  - cbv zeta. repeat split; try reflexivity.
    + intros H. vm_compute in H. set (f v := PrimFloat.eqb (vx v + vy v) 0).
      repeat (apply elem_of_cons in H as [H | H];
              [apply (f_equal f) in H; vm_compute in H; discriminate |]).
      inversion H.
    + intros H. vm_compute in H. set (f v := PrimFloat.eqb (vx v + vy v) 2).
      repeat (apply elem_of_cons in H as [H | H];
              [apply (f_equal f) in H; vm_compute in H; discriminate |]).
      inversion H.
Qed.

(** The spec's scenario: four points. *)
Example bounds_of_four_points :
  let pc := mkPointCloud [Vec3 0 0 0; Vec3 1 0 0; Vec3 0 1 0; Vec3 0 0 1] [] [] in
  GetMinBound pc = Vec3 0 0 0 ∧ GetMaxBound pc = Vec3 1 1 1.
Proof. split; reflexivity. Qed.

(** ** Mean and covariance *)

Lemma fold_accumulate pts : ∀ c,
  fold_left accumulate pts c =
  Vec9 (fold_left PrimFloat.add (map (λ p, coeff p 0) pts) (c0 c))
       (fold_left PrimFloat.add (map (λ p, coeff p 1) pts) (c1 c))
       (fold_left PrimFloat.add (map (λ p, coeff p 2) pts) (c2 c))
       (fold_left PrimFloat.add (map (λ p, coeff p 0 * coeff p 0)%float pts) (c3 c))
       (fold_left PrimFloat.add (map (λ p, coeff p 0 * coeff p 1)%float pts) (c4 c))
       (fold_left PrimFloat.add (map (λ p, coeff p 0 * coeff p 2)%float pts) (c5 c))
       (fold_left PrimFloat.add (map (λ p, coeff p 1 * coeff p 1)%float pts) (c6 c))
       (fold_left PrimFloat.add (map (λ p, coeff p 1 * coeff p 2)%float pts) (c7 c))
       (fold_left PrimFloat.add (map (λ p, coeff p 2 * coeff p 2)%float pts) (c8 c)).
Proof.
  induction pts as [|p pts IH]; intros c.
  - by destruct c.
  - cbn [fold_left map]. rewrite IH. reflexivity.
Qed.

Lemma covariance_entry_sym pts i j : covariance_entry pts i j = covariance_entry pts j i.
Proof.
  unfold covariance_entry, second_moment, sum_of.
  rewrite (FloatOrder.mul_comm (first_moment pts i)). do 3 f_equal.
  apply map_ext. intros p. apply FloatOrder.mul_comm.
Qed.

(** C1: on a cloud without points the result is the zero mean and the
    identity covariance; on a cloud of N > 0 points the mean is the three
    sums of coordinates each divided by N, and the covariance entry (i, j)
    is the averaged sum of the products x_i * x_j minus the product of the
    two averaged sums of x_i and of x_j (the divisions by N come before
    that product); the covariance matrix is symmetric. *)
Theorem mean_and_covariance_moments :
  (∀ normals colors,
     ComputePointCloudMeanAndCovariance (mkPointCloud [] normals colors)
     = (Vec3 0 0 0, Mat3 (Vec3 1 0 0) (Vec3 0 1 0) (Vec3 0 0 1))) ∧
  (∀ p ps normals colors,
     let pts := p :: ps in
     let result := ComputePointCloudMeanAndCovariance (mkPointCloud pts normals colors) in
     result.1 = Vec3 (first_moment pts 0) (first_moment pts 1) (first_moment pts 2) ∧
     (∀ i j, coeff2 result.2 i j = covariance_entry pts i j) ∧
     (∀ i j, coeff2 result.2 i j = coeff2 result.2 j i)).
Proof.
  split; [reflexivity|]. intros p ps normals colors pts result.
  assert (Hupper : ∀ i j, i ≤ j → coeff2 result.2 i j = covariance_entry pts i j).
  { intros i j Hij. unfold result, ComputePointCloudMeanAndCovariance.
    cbn [IsEmpty HasPoints points_ pts length Nat.eqb negb].
    rewrite fold_accumulate.
    destruct i as [|[|i]], j as [|[|j]]; try lia; reflexivity. }
  assert (Hsym : ∀ i j, coeff2 result.2 i j = coeff2 result.2 j i).
  { intros i j. unfold result, ComputePointCloudMeanAndCovariance.
    cbn [IsEmpty HasPoints points_ pts length Nat.eqb negb].
    destruct i as [|[|i]], j as [|[|j]]; reflexivity. }
  split; [|split; [|exact Hsym]].
  - unfold result, ComputePointCloudMeanAndCovariance.
    cbn [IsEmpty HasPoints points_ pts length Nat.eqb negb].
    rewrite fold_accumulate. reflexivity.
  - intros i j. destruct (Nat.le_ge_cases i j) as [Hij | Hij].
    + by apply Hupper.
    + rewrite Hsym, covariance_entry_sym. by apply Hupper.
Qed.

(** The spec's scenario: four points. *)
Example moments_of_four_points :
  ComputePointCloudMeanAndCovariance
    (mkPointCloud [Vec3 0 0 0; Vec3 1 0 0; Vec3 0 1 0; Vec3 0 0 1] [] [])
  = (Vec3 0.25 0.25 0.25,
     Mat3 (Vec3 0.1875 (-0.0625) (-0.0625))
          (Vec3 (-0.0625) 0.1875 (-0.0625))
          (Vec3 (-0.0625) (-0.0625) 0.1875)).
Proof. reflexivity. Qed.

(** ** [Transform] *)

Lemma range_for_loop_map {A} (body : A → A) (v : list A) : ∀ n i,
  i + n = length v →
  range_for_loop body i n (map body (take i v) ++ drop i v) = map body v.
Proof.
  induction n as [|n IH]; intros i Hi; simpl.
  - rewrite take_ge, drop_ge by lia. by rewrite app_nil_r.
  - destruct (lookup_lt_is_Some_2 v i) as [x Hx]; [lia|].
    assert (Hlen : length (map body (take i v)) = i)
      by (rewrite length_map, length_take; lia).
    rewrite lookup_app_r, Hlen, Nat.sub_diag, (drop_S _ _ _ Hx) by lia. simpl.
    rewrite <- (IH (S i)) by lia. f_equal.
    replace i with (length (map body (take i v)) + 0) at 1 by lia.
    rewrite insert_app_r. simpl.
    rewrite (take_S_r _ _ _ Hx), map_app, <- app_assoc. reflexivity.
Qed.

Lemma range_for_map {A} (body : A → A) (v : list A) : range_for body v = map body v.
Proof. apply (range_for_loop_map body v (length v) 0). lia. Qed.

(** The image of a vector by [M] with a given homogeneous coordinate. *)
Lemma transform_point_homogeneous M p :
  transform_point M p = block31 (mul4 M (Vec4 (vx p) (vy p) (vz p) 1)).
Proof. reflexivity. Qed.

Lemma transform_normal_homogeneous M n :
  transform_normal M n = block31 (mul4 M (Vec4 (vx n) (vy n) (vz n) 0)).
Proof. reflexivity. Qed.

(** The translation of the matrix has no part in the image of a normal:
    that image denotes the same vector as the image by the 3x3 block. *)
Lemma normal_ignores_translation M n :
  finite_translation M = true →
  same_vector (transform_normal M n) (linear_image M n) = true.
Proof.
  unfold finite_translation, same_vector.
  rewrite !andb_true_iff. intros [[H0 H1] H2].
  repeat split; cbn; by apply FloatOrder.add_zero_product.
Qed.

(** C9: [Transform] replaces every point by its image with homogeneous
    coordinate 1 and every normal by its image with homogeneous coordinate
    0, and leaves the colors as they are.  With the translation by
    (1, 0, 0) the point (0, 0, 0) goes to (1, 0, 0) and the normal
    (1, 0, 0) stays (1, 0, 0). *)
Theorem transform_points_normals_colors :
  (∀ M pc,
     points_ (Transform M pc) = map (homogeneous_image M 1) (points_ pc) ∧
     normals_ (Transform M pc) = map (homogeneous_image M 0) (normals_ pc) ∧
     colors_ (Transform M pc) = colors_ pc) ∧
  (∀ M n, finite_translation M = true →
     same_vector (homogeneous_image M 0 n) (linear_image M n) = true) ∧
  (let M := Mat4 (Vec4 1 0 0 1) (Vec4 0 1 0 0) (Vec4 0 0 1 0) (Vec4 0 0 0 1) in
   Transform M (mkPointCloud [Vec3 0 0 0] [Vec3 1 0 0] [])
   = mkPointCloud [Vec3 1 0 0] [Vec3 1 0 0] []).
Proof.
  split; [|split; [exact normal_ignores_translation | reflexivity]].
  intros M pc. unfold Transform. cbn [points_ normals_ colors_].
  rewrite !range_for_map. repeat split; by apply map_ext.
Qed.

Example a_normal_keeps_its_image_under_translation :
  let M := Mat4 (Vec4 2 0 0 5) (Vec4 0 2 0 (-7)) (Vec4 0 0 2 0.5) (Vec4 0 0 0 1) in
  finite_translation M = true ∧
  transform_normal M (Vec3 0 0 1) = Vec3 0 0 2 ∧
  transform_point M (Vec3 0 0 1) = Vec3 5 (-7) 2.5.
Proof. repeat split; reflexivity. Qed.

(** ** [operator+=] *)

Lemma set_get_field f a : set_field f (get_field f a) a = a.
Proof. by destruct f, a. Qed.

Lemma get_set_field f v a : get_field f (set_field f v a) = v.
Proof. by destruct f. Qed.

Lemma set_set_field f v v' a : set_field f v (set_field f v' a) = set_field f v a.
Proof. by destruct f. Qed.

Lemma length_vec_resize {A} (fresh : nat → A) n v : length (vec_resize fresh n v) = n.
Proof. unfold vec_resize. rewrite length_app, length_take, length_map, length_seq. lia. Qed.

Lemma take_vec_resize {A} (fresh : nat → A) n k v :
  k ≤ n → k = 0 ∨ k ≤ length v → take k (vec_resize fresh n v) = take k v.
Proof.
  intros Hkn [-> | Hk]; [done|]. unfold vec_resize.
  rewrite take_app_le by (rewrite length_take; lia).
  rewrite take_take. f_equal. lia.
Qed.

Lemma operator_plus_assign_empty uninit this cloud (h : Heap) B :
  h !! cloud = Some B → IsEmpty B = true →
  operator_plus_assign uninit this cloud h = Some h.
Proof.
  intros HB HeB. unfold operator_plus_assign. rewrite HB. cbn [mbind option_bind].
  by rewrite HeB.
Qed.

Section ConcatenateFacts.
Variable uninit : Field → nat → Vector3d.

(** The copy loop, started at [i] on a destination [dst] of the final
    size, writes the elements of [src] from [i] on behind the first
    [old_vert_num + i], whether or not the two clouds are one object. *)
Lemma copy_loop_spec f this cloud old_vert_num src : ∀ n i (h : Heap) a,
  i + n = length src →
  h !! this = Some a →
  length (get_field f a) = old_vert_num + length src →
  (∃ c, h !! cloud = Some c ∧ take (length src) (get_field f c) = src) →
  (this = cloud → length src ≤ old_vert_num) →
  copy_loop f this cloud old_vert_num i n h
  = Some (<[this := set_field f (take (old_vert_num + i) (get_field f a) ++ drop i src) a]> h).
Proof.
  induction n as [|n IH]; intros i h a Hi Ha Hlen (c & Hc & Hsrc) Halias; simpl.
  - rewrite take_ge, drop_ge, app_nil_r, set_get_field, insert_id by (done || lia). done.
  - destruct (lookup_lt_is_Some_2 src i) as [x Hx]; [lia|].
    rewrite Hc. simpl.
    assert (Hcx : get_field f c !! i = Some x).
    { rewrite <- Hsrc in Hx. apply lookup_take_Some in Hx. tauto. }
    rewrite Hcx, Ha. simpl. unfold vec_store.
    rewrite decide_True by lia. simpl.
    set (a' := set_field f (<[old_vert_num + i := x]> (get_field f a)) a).
    rewrite (IH (S i) _ a'); unfold a';
      rewrite ?lookup_insert_eq, ?get_set_field, ?length_insert; try done; try lia.
    + rewrite insert_insert_eq, set_set_field. do 3 f_equal.
      rewrite (drop_S _ _ _ Hx).
      replace (old_vert_num + S i) with (S (old_vert_num + i)) by lia.
      erewrite take_S_r by (apply list_lookup_insert_eq; lia).
      rewrite take_insert_ge, <- app_assoc by lia. done.
    + destruct (decide (this = cloud)) as [<- | Hne].
      * exists (set_field f (<[old_vert_num + i := x]> (get_field f a)) a).
        rewrite lookup_insert_eq, get_set_field. split; [done|].
        rewrite take_insert_ge by (specialize (Halias eq_refl); lia). congruence.
      * exists c. by rewrite lookup_insert_ne.
Qed.

(** The points or an attribute appended: resize, then copy. *)
Lemma append_field f this cloud (h : Heap) A B old_vert_num add_vert_num :
  h !! this = Some A →
  h !! cloud = Some B →
  length (get_field f B) = add_vert_num →
  old_vert_num = 0 ∨ length (get_field f A) = old_vert_num →
  (this = cloud → add_vert_num ≤ old_vert_num) →
  (h' ← resize_field uninit f this (old_vert_num + add_vert_num) h;
   copy_loop f this cloud old_vert_num 0 add_vert_num h')
  = Some (<[this := set_field f (take old_vert_num (get_field f A) ++ get_field f B) A]> h).
Proof.
  intros HA HB HlenB HlenA Halias. unfold resize_field. rewrite HA. simpl.
  set (old := old_vert_num) in *. set (add := add_vert_num) in *.
  rewrite (copy_loop_spec f this cloud old (get_field f B) add 0 _
             (set_field f (vec_resize (uninit f) (old + add) (get_field f A)) A)).
  - rewrite insert_insert_eq, set_set_field, get_set_field, Nat.add_0_r, drop_0.
    rewrite take_vec_resize by lia. done.
  - lia.
  - apply lookup_insert_eq.
  - rewrite get_set_field, length_vec_resize. lia.
  - destruct (decide (this = cloud)) as [<- | Hne].
    + eexists. rewrite lookup_insert_eq. split; [done|].
      assert (A = B) by congruence. subst B.
      rewrite get_set_field, take_vec_resize by lia.
      apply take_ge. lia.
    + exists B. rewrite lookup_insert_ne by done. split; [done|].
      apply take_ge. lia.
  - intros ?. rewrite HlenB. auto.
Qed.

(** An attribute appended or dropped. *)
Lemma append_or_clear_field f (keep : bool) this cloud (h : Heap) A B old_vert_num add_vert_num :
  h !! this = Some A →
  h !! cloud = Some B →
  (keep = true →
     length (get_field f B) = add_vert_num ∧
     (old_vert_num = 0 ∨ length (get_field f A) = old_vert_num)) →
  (this = cloud → add_vert_num ≤ old_vert_num) →
  (if keep
   then h' ← resize_field uninit f this (old_vert_num + add_vert_num) h;
        copy_loop f this cloud old_vert_num 0 add_vert_num h'
   else clear_field f this h)
  = Some (<[this := set_field f
              (concat_attr keep old_vert_num (get_field f A) (get_field f B)) A]> h).
Proof.
  intros HA HB Hkeep Halias. destruct keep; simpl.
  - destruct Hkeep as [? ?]; [done|]. by apply append_field.
  - unfold clear_field. by rewrite HA.
Qed.

Lemma keep_lengths (pa xa pb xb : list Vector3d) :
  (negb (negb (length pa =? 0)) || negb (length pa =? 0) && (length xa =? length pa))
  && (negb (length pb =? 0) && (length xb =? length pb)) = true →
  length xb = length pb ∧ (length pa = 0 ∨ length xa = length pa).
Proof.
  repeat match goal with
  | |- context [Nat.eqb ?a ?b] => destruct (Nat.eqb_spec a b)
  end; simpl; intros; try discriminate; lia.
Qed.

(** [A += B] for a cloud [B] with points, [A] and [B] being the values
    held at the two addresses, which may be one. *)
Lemma operator_plus_assign_nonempty this cloud (h : Heap) A B :
  h !! this = Some A →
  h !! cloud = Some B →
  IsEmpty B = false →
  operator_plus_assign uninit this cloud h = Some (<[this := concat_clouds A B]> h).
Proof.
  intros HA HB HnB. unfold operator_plus_assign. rewrite HB. cbn [mbind option_bind].
  rewrite HnB, HA. cbn [mbind option_bind].
  assert (Halias : this = cloud → length (points_ B) ≤ length (points_ A))
    by (intros ->; assert (A = B) by congruence; by subst).
  rewrite (append_or_clear_field Normals _ this cloud h A B); try done.
  2:{ destruct A, B. apply keep_lengths. }
  cbn [mbind option_bind]. rewrite lookup_insert_eq. cbn [mbind option_bind].
  set (A1 := set_field Normals _ A).
  assert (∃ C1, <[this := A1]> h !! cloud = Some C1 ∧ points_ C1 = points_ B
                ∧ colors_ C1 = colors_ B) as (C1 & HC1 & HpC1 & HcC1).
  { destruct (decide (this = cloud)) as [<- | Hne].
    - exists A1. rewrite lookup_insert_eq. replace B with A by congruence. done.
    - exists B. by rewrite lookup_insert_ne. }
  rewrite HC1. cbn [mbind option_bind].
  rewrite (append_or_clear_field Colors _ this cloud _ A1 C1); try done.
  2:{ apply lookup_insert_eq. }
  2:{ unfold HasPoints, HasColors, HasPoints. cbn [get_field]. rewrite HpC1, HcC1.
      destruct A, B. apply keep_lengths. }
  cbn [mbind option_bind]. rewrite insert_insert_eq.
  set (A2 := set_field Colors _ A1).
  assert (∃ C2, <[this := A2]> h !! cloud = Some C2 ∧ points_ C2 = points_ B)
    as (C2 & HC2 & HpC2).
  { destruct (decide (this = cloud)) as [<- | Hne].
    - exists A2. rewrite lookup_insert_eq. replace B with A by congruence. done.
    - exists B. by rewrite lookup_insert_ne. }
  rewrite (append_field Points this cloud _ A2 C2); try done.
  2:{ apply lookup_insert_eq. }
  2:{ cbn [get_field]. by rewrite HpC2. }
  2:{ by right. }
  rewrite insert_insert_eq. do 2 f_equal.
  unfold concat_clouds, A2, A1, HasColors, HasPoints. cbn. rewrite HpC2, HcC1, HpC1.
  rewrite take_ge by done. done.
Qed.
(** [A + B] is the same concatenation, computed on a copy of [A]. *)
Lemma operator_plus_value this cloud tmp (h : Heap) A B :
  h !! this = Some A → h !! cloud = Some B → tmp ≠ cloud →
  operator_plus uninit this cloud tmp h
  = Some (if IsEmpty B then A else concat_clouds A B).
Proof.
  intros HA HB Hne. unfold operator_plus. rewrite HA. cbn [mbind option_bind].
  assert (HB' : <[tmp := A]> h !! cloud = Some B) by by rewrite lookup_insert_ne.
  destruct (IsEmpty B) eqn:HeB.
  - rewrite (operator_plus_assign_empty _ tmp cloud _ B HB' HeB). cbn [mbind option_bind].
    apply lookup_insert_eq.
  - rewrite (operator_plus_assign_nonempty tmp cloud _ A B) by (done || apply lookup_insert_eq).
    cbn [mbind option_bind]. apply lookup_insert_eq.
Qed.
End ConcatenateFacts.

Lemma has_concat_attr (pa xa pb xb : list Vector3d) :
  length pb ≠ 0 →
  let hasA := negb (length pa =? 0) && (length xa =? length pa) in
  let hasB := negb (length pb =? 0) && (length xb =? length pb) in
  let keep := (negb (negb (length pa =? 0)) || hasA) && hasB in
  negb (length (pa ++ pb) =? 0)
  && (length (concat_attr keep (length pa) xa xb) =? length (pa ++ pb))
  = hasB && (hasA || negb (negb (length pa =? 0))).
Proof.
  intros Hpb. cbv zeta. unfold concat_attr.
  destruct (Nat.eqb_spec (length pa) 0), (Nat.eqb_spec (length pb) 0),
    (Nat.eqb_spec (length xa) (length pa)), (Nat.eqb_spec (length xb) (length pb));
  cbn [negb andb orb]; try reflexivity;
  rewrite ?length_app, ?length_take; cbn [length];
  repeat match goal with
  | |- context [Nat.eqb ?a ?b] => destruct (Nat.eqb_spec a b)
  end; cbn [negb andb orb]; try reflexivity; lia.
Qed.

Lemma IsEmpty_false_length B : IsEmpty B = false → length (points_ B) ≠ 0.
Proof.
  unfold IsEmpty, HasPoints. destruct (Nat.eqb_spec (length (points_ B)) 0); [done | auto].
Qed.

Lemma HasNormals_concat A B :
  IsEmpty B = false →
  HasNormals (concat_clouds A B) = HasNormals B && (HasNormals A || IsEmpty A).
Proof.
  intros HB%IsEmpty_false_length. destruct A as [pa na ca], B as [pb nb cb].
  apply (has_concat_attr pa na pb nb HB).
Qed.

Lemma HasColors_concat A B :
  IsEmpty B = false →
  HasColors (concat_clouds A B) = HasColors B && (HasColors A || IsEmpty A).
Proof.
  intros HB%IsEmpty_false_length. destruct A as [pa na ca], B as [pb nb cb].
  apply (has_concat_attr pa ca pb cb HB).
Qed.

Lemma concat_attr_dropped keep n a b :
  length (concat_attr keep n a b) = 0 ∨ keep = true.
Proof. destruct keep; auto. Qed.

(** C10: adding a cloud without points leaves the heap, hence [A] with its
    points, normals and colors, as it was. *)
Theorem adding_an_empty_cloud_changes_nothing uninit this cloud (h : Heap) A B :
  h !! this = Some A → h !! cloud = Some B → IsEmpty B = true →
  ∃ h', operator_plus_assign uninit this cloud h = Some h' ∧ h' = h ∧ h' !! this = Some A.
Proof.
  intros HA HB HeB. exists h. split; [|done]. by eapply operator_plus_assign_empty.
Qed.

Lemma adding_an_empty_cloud_witness :
  ∃ h', operator_plus_assign stale 0 1 (heap_of empty_cloud) = Some h'
        ∧ h' = heap_of empty_cloud ∧ h' !! 0 = Some full_cloud.
Proof.
  apply (adding_an_empty_cloud_changes_nothing stale 0 1
           (heap_of empty_cloud) full_cloud empty_cloud); reflexivity.
Defined.

(** C2 as stated fails: [full_cloud += empty_cloud] keeps the normals (and
    the colors) of [full_cloud] although [empty_cloud] has none. *)
Lemma presence_rule_fails_for_an_empty_addend :
  ¬ presence_rule HasNormals stale 0 1 (heap_of empty_cloud).
Proof.
  intros (A & B & h' & A' & HA & HB & Hop & HA' & Hrule).
  vm_compute in HA, HB, Hop.
  injection HA as <-. injection HB as <-. injection Hop as <-.
  vm_compute in HA'. injection HA' as <-.
  vm_compute in Hrule. discriminate.
Qed.

(** C2, amended: when [B] has points, the result of [A += B] has the
    normals exactly when [B] has them and [A] had them or was empty, and
    otherwise holds no normals at all; the same for the colors.  When [B]
    has no points the result is [A] as it was. *)
Theorem presence_rule_for_an_addend_with_points uninit this cloud (h : Heap) A B :
  h !! this = Some A → h !! cloud = Some B →
  ∃ A', operator_plus_assign uninit this cloud h = Some (<[this := A']> h) ∧
    (IsEmpty B = true → A' = A) ∧
    (IsEmpty B = false →
       HasNormals A' = HasNormals B && (HasNormals A || IsEmpty A) ∧
       (HasNormals A' = false → normals_ A' = []) ∧
       HasColors A' = HasColors B && (HasColors A || IsEmpty A) ∧
       (HasColors A' = false → colors_ A' = [])).
Proof.
  intros HA HB. destruct (IsEmpty B) eqn:HeB.
  - exists A. rewrite insert_id by done. split; [|done].
    by eapply operator_plus_assign_empty.
  - exists (concat_clouds A B). split; [by apply operator_plus_assign_nonempty|].
    split; [done|]. intros _.
    pose proof (HasNormals_concat A B HeB) as Hn.
    pose proof (HasColors_concat A B HeB) as Hc.
    repeat split; try done.
    + intros Hno. rewrite Hno in Hn. cbn [concat_clouds normals_].
      destruct (concat_attr_dropped
                  ((IsEmpty A || HasNormals A) && HasNormals B)
                  (length (points_ A)) (normals_ A) (normals_ B)) as [H0 | Hk].
      * by apply nil_length_inv.
      * rewrite andb_comm, orb_comm in Hk. congruence.
    + intros Hno. rewrite Hno in Hc. cbn [concat_clouds colors_].
      destruct (concat_attr_dropped
                  ((IsEmpty A || HasColors A) && HasColors B)
                  (length (points_ A)) (colors_ A) (colors_ B)) as [H0 | Hk].
      * by apply nil_length_inv.
      * rewrite andb_comm, orb_comm in Hk. congruence.
Qed.

Lemma presence_rule_witness :
  ∃ A', operator_plus_assign stale 0 1 (heap_of normals_cloud)
        = Some (<[0 := A']> (heap_of normals_cloud)) ∧
    (IsEmpty normals_cloud = true → A' = full_cloud) ∧
    (IsEmpty normals_cloud = false →
       HasNormals A' = HasNormals normals_cloud && (HasNormals full_cloud || IsEmpty full_cloud) ∧
       (HasNormals A' = false → normals_ A' = []) ∧
       HasColors A' = HasColors normals_cloud && (HasColors full_cloud || IsEmpty full_cloud) ∧
       (HasColors A' = false → colors_ A' = [])).
Proof.
  apply (presence_rule_for_an_addend_with_points stale 0 1
           (heap_of normals_cloud) full_cloud normals_cloud); reflexivity.
Defined.

(** What the sample run computes: the normals are appended, the colors,
    which only [full_cloud] had, are dropped. *)
Example full_plus_normals_cloud :
  operator_plus_assign stale 0 1 (heap_of normals_cloud)
  = Some (<[0 := mkPointCloud [Vec3 1 2 3; Vec3 4 5 6; Vec3 7 8 9]
                              [Vec3 0 0 1; Vec3 1 0 0; Vec3 0 1 0] []]>
            (heap_of normals_cloud)).
Proof. by rewrite (operator_plus_assign_nonempty _ 0 1 _ full_cloud normals_cloud). Qed.

(** C3: [A += A] on a cloud of N points gives 2N points, the points of [A]
    twice; its normals and its colors, when it has them, are doubled in the
    same way.  Nothing is read outside a vector and no element of the
    result is one of the fresh elements of a resize. *)
Theorem self_concatenation_doubles uninit this (h : Heap) A :
  h !! this = Some A →
  ∃ A', operator_plus_assign uninit this this h = Some (<[this := A']> h) ∧
    points_ A' = points_ A ++ points_ A ∧
    length (points_ A') = 2 * length (points_ A) ∧
    (HasNormals A = true → normals_ A' = normals_ A ++ normals_ A) ∧
    (HasColors A = true → colors_ A' = colors_ A ++ colors_ A).
Proof.
  intros HA. destruct (IsEmpty A) eqn:HeA.
  - exists A. rewrite insert_id by done.
    split; [by eapply operator_plus_assign_empty|].
    assert (Hp : points_ A = []).
    { apply nil_length_inv. unfold IsEmpty, HasPoints in HeA.
      destruct (Nat.eqb_spec (length (points_ A)) 0); [done | discriminate]. }
    unfold HasNormals, HasColors, HasPoints. rewrite Hp. by repeat split.
  - exists (concat_clouds A A). split; [by apply operator_plus_assign_nonempty|].
    cbn [concat_clouds points_ normals_ colors_]. rewrite length_app.
    repeat split; [lia | |].
    + intros Hn. rewrite Hn, orb_true_r. cbn [andb concat_attr].
      rewrite take_ge; [done|]. unfold HasNormals in Hn.
      apply andb_true_iff in Hn as [_ Hn%Nat.eqb_eq]. lia.
    + intros Hc. rewrite Hc, orb_true_r. cbn [andb concat_attr].
      rewrite take_ge; [done|]. unfold HasColors in Hc.
      apply andb_true_iff in Hc as [_ Hc%Nat.eqb_eq]. lia.
Qed.

Lemma self_concatenation_witness :
  ∃ A', operator_plus_assign stale 0 0 (heap_of empty_cloud)
        = Some (<[0 := A']> (heap_of empty_cloud)) ∧
    points_ A' = points_ full_cloud ++ points_ full_cloud ∧
    length (points_ A') = 2 * length (points_ full_cloud) ∧
    (HasNormals full_cloud = true → normals_ A' = normals_ full_cloud ++ normals_ full_cloud) ∧
    (HasColors full_cloud = true → colors_ A' = colors_ full_cloud ++ colors_ full_cloud).
Proof.
  apply (self_concatenation_doubles stale 0 (heap_of empty_cloud) full_cloud).
  reflexivity.
Defined.

Example normals_cloud_plus_itself :
  operator_plus_assign stale 1 1 (heap_of normals_cloud)
  = Some (<[1 := mkPointCloud [Vec3 4 5 6; Vec3 7 8 9; Vec3 4 5 6; Vec3 7 8 9]
                              [Vec3 1 0 0; Vec3 0 1 0; Vec3 1 0 0; Vec3 0 1 0] []]>
            (heap_of normals_cloud)).
Proof. by rewrite (operator_plus_assign_nonempty _ 1 1 _ normals_cloud normals_cloud). Qed.

(** ** Counted loops *)

Lemma int_cast_small (n : nat) :
  (Z.of_nat n ≤ INT_MAX)%Z → Z.to_nat (int_cast (Z.of_nat n)) = n.
Proof.
  unfold INT_MAX, int_cast. change (2 ^ 31)%Z with 2147483648%Z.
  change (2 ^ 32)%Z with 4294967296%Z. intros Hn.
  rewrite Z.mod_small by lia.
  destruct (Z.ltb_spec (Z.of_nat n) 2147483648); lia.
Qed.

(** A loop whose turn [i] writes slot [i] from the point [i] and appends
    the diagnostics of that point computes a map over the points. *)
Lemma for_loop_fills (pts : list Vector3d) (slot : Vector3d → float * list string)
    (body : nat → list float * list string → option (list float * list string)) :
  (∀ i p out console, pts !! i = Some p → i < length out →
     body i (out, console) = Some (<[i := (slot p).1]> out, console ++ (slot p).2)) →
  ∀ n i out console,
    i + n = length pts → length out = length pts →
    for_loop body i n (out, console)
    = Some (take i out ++ map (λ p, (slot p).1) (drop i pts),
            console ++ concat (map (λ p, (slot p).2) (drop i pts))).
Proof.
  intros Hbody. induction n as [|n IH]; intros i out console Hi Hlen; simpl.
  - rewrite drop_ge, take_ge by lia. simpl. by rewrite !app_nil_r.
  - destruct (lookup_lt_is_Some_2 pts i) as [p Hp]; [lia|].
    rewrite (Hbody i p) by (done || lia). simpl.
    rewrite IH by (rewrite ?length_insert; lia).
    rewrite (drop_S _ _ _ Hp). simpl.
    erewrite take_S_r by (apply list_lookup_insert_eq; lia).
    rewrite take_insert_ge, <- !app_assoc by lia. done.
Qed.

Lemma for_int_below_size_fills (pts : list Vector3d) (slot : Vector3d → float * list string)
    (body : nat → list float * list string → option (list float * list string)) :
  (∀ i p out console, pts !! i = Some p → i < length out →
     body i (out, console) = Some (<[i := (slot p).1]> out, console ++ (slot p).2)) →
  (Z.of_nat (length pts) ≤ INT_MAX)%Z →
  for_int_below_size (length pts) body (replicate (length pts) 0%float, [])
  = Some (map (λ p, (slot p).1) pts, concat (map (λ p, (slot p).2) pts)).
Proof.
  intros Hbody Hsize. unfold for_int_below_size. rewrite int_cast_small by done.
  rewrite (for_loop_fills pts slot body Hbody) by (rewrite ?length_replicate; lia).
  by rewrite take_0, drop_0.
Qed.

(** ** Distances *)

Lemma brute_force_count geometry query knn indices distance2 :
  knn_count (brute_force_knn geometry query knn indices distance2)
  = Z.of_nat (length (knn_distance2 (brute_force_knn geometry query knn indices distance2))).
Proof. unfold brute_force_knn. cbn [knn_count knn_distance2]. by rewrite length_map. Qed.

Lemma brute_force_empty query knn indices distance2 :
  knn_count (brute_force_knn [] query knn indices distance2) = 0%Z.
Proof. unfold brute_force_knn. cbn. by rewrite take_nil. Qed.

Lemma brute_force_meets_contract : knn_contract brute_force_knn.
Proof. by intros geometry query knn indices distance2 _. Qed.

Lemma squared_distance_diag p : finite_vector p = true → squared_distance p p = 0%float.
Proof.
  unfold finite_vector, squared_distance. rewrite !andb_true_iff. intros [[Hx Hy] Hz].
  rewrite !FloatOrder.sub_diag by done. reflexivity.
Qed.

(** Two coincident points are each at squared distance [d] from the query. *)
Lemma brute_force_coincident p query indices distance2 :
  let d := squared_distance query p in
  brute_force_knn [p; p] query 2 indices distance2
  = mkKnn 2 (knn_indices (brute_force_knn [p; p] query 2 indices distance2)) [d; d].
Proof.
  unfold brute_force_knn. cbn. rewrite FloatOrder.ltb_irrefl. reflexivity.
Qed.

Section DistanceFacts.
Variable SearchKNN : list Vector3d → Vector3d → Z → list Z → list float → KnnResult.
Hypothesis contract : knn_contract SearchKNN.

Lemma contract_count geometry query knn indices distance2 :
  (0 ≤ knn)%Z →
  knn_count (SearchKNN geometry query knn indices distance2)
  = Z.of_nat (length (knn_distance2 (SearchKNN geometry query knn indices distance2))).
Proof.
  intros Hk. destruct (contract geometry query knn indices distance2 Hk) as [-> ->].
  apply brute_force_count.
Qed.

Lemma lookup_nth_float (l : list float) i :
  i < length l → l !! i = Some (nth i l 0%float).
Proof.
  intros Hi. destruct (lookup_lt_is_Some_2 l i Hi) as [x Hx].
  by rewrite nth_lookup, Hx.
Qed.

Lemma point_to_cloud_distance_map source target :
  (Z.of_nat (length (points_ source)) ≤ INT_MAX)%Z →
  ComputePointCloudToPointCloudDistance SearchKNN source target
  = Some (map (λ p, (nearest_target_distance SearchKNN (points_ target) p).1) (points_ source),
          concat (map (λ p, (nearest_target_distance SearchKNN (points_ target) p).2)
                      (points_ source))).
Proof.
  intros Hsize. unfold ComputePointCloudToPointCloudDistance.
  apply (for_int_below_size_fills (points_ source)
           (nearest_target_distance SearchKNN (points_ target))); [|done].
  intros i p out console Hp Hi. rewrite Hp. cbn [mbind option_bind replicate].
  unfold nearest_target_distance, vec_store.
  pose proof (contract_count (points_ target) p 1 [0%Z] [0%float] ltac:(lia)) as Hcount.
  destruct (Z.eqb_spec (knn_count (SearchKNN (points_ target) p 1 [0%Z] [0%float])) 0)
    as [Hz | Hnz].
  - rewrite decide_True by done. reflexivity.
  - rewrite (lookup_nth_float _ 0) by lia. cbn [mbind option_bind].
    rewrite decide_True by done. cbn [mbind option_bind fst snd].
    by rewrite app_nil_r.
Qed.

Lemma nearest_neighbor_distance_map input :
  (Z.of_nat (length (points_ input)) ≤ INT_MAX)%Z →
  ComputePointCloudNearestNeighborDistance SearchKNN input
  = Some (map (λ p, (nearest_other_distance SearchKNN (points_ input) p).1) (points_ input),
          concat (map (λ p, (nearest_other_distance SearchKNN (points_ input) p).2)
                      (points_ input))).
Proof.
  intros Hsize. unfold ComputePointCloudNearestNeighborDistance.
  apply (for_int_below_size_fills (points_ input)
           (nearest_other_distance SearchKNN (points_ input))); [|done].
  intros i p out console Hp Hi. rewrite Hp. cbn [mbind option_bind replicate].
  unfold nearest_other_distance, vec_store.
  pose proof (contract_count (points_ input) p 2 [0%Z; 0%Z] [0%float; 0%float] ltac:(lia))
    as Hcount.
  destruct (Z.leb_spec (knn_count (SearchKNN (points_ input) p 2 [0%Z; 0%Z] [0%float; 0%float])) 1)
    as [Hle | Hgt].
  - rewrite (proj2 (Z.ltb_lt _ 2)) by lia.
    rewrite decide_True by done. reflexivity.
  - rewrite (proj2 (Z.ltb_ge _ 2)) by lia.
    rewrite (lookup_nth_float _ 1) by lia. cbn [mbind option_bind].
    rewrite decide_True by done. cbn [mbind option_bind fst snd].
    by rewrite app_nil_r.
Qed.

Lemma nearest_target_distance_empty p :
  nearest_target_distance SearchKNN [] p = (0%float, [msg_p2p]).
Proof.
  unfold nearest_target_distance.
  destruct (contract [] p 1%Z [0%Z] [0%float] ltac:(lia)) as [-> _].
  by rewrite brute_force_empty.
Qed.

Lemma nearest_other_distance_coincident p :
  finite_vector p = true →
  nearest_other_distance SearchKNN [p; p] p = (0%float, []).
Proof.
  intros Hp. unfold nearest_other_distance.
  destruct (contract [p; p] p 2%Z [0%Z; 0%Z] [0%float; 0%float] ltac:(lia)) as [-> ->].
  rewrite brute_force_coincident. cbn [knn_count knn_distance2 Z.ltb Z.compare Pos.compare Pos.compare_cont nth].
  by rewrite squared_distance_diag.
Qed.
End DistanceFacts.

Lemma map_const_replicate {A B} (x : B) (l : list A) : map (λ _, x) l = replicate (length l) x.
Proof. induction l as [|a l IH]; [done|]. simpl. by rewrite IH. Qed.

Lemma concat_map_singleton {A B} (x : B) (l : list A) :
  concat (map (λ _, [x]) l) = replicate (length l) x.
Proof. induction l as [|a l IH]; [done|]. simpl. by rewrite IH. Qed.

(** C6: the distance of every source point is the square root of the one
    squared distance the index over the target returns for it, or 0.0 with
    a diagnostic when the index returns none; every point is processed.
    With a target without points all distances are 0.0, each with its
    diagnostic. *)
Theorem point_to_cloud_distance_per_point SearchKNN source target :
  knn_contract SearchKNN →
  (Z.of_nat (length (points_ source)) ≤ INT_MAX)%Z →
  ComputePointCloudToPointCloudDistance SearchKNN source target
  = Some (map (λ p, (nearest_target_distance SearchKNN (points_ target) p).1) (points_ source),
          concat (map (λ p, (nearest_target_distance SearchKNN (points_ target) p).2)
                      (points_ source)))
  ∧ (points_ target = [] →
     ComputePointCloudToPointCloudDistance SearchKNN source target
     = Some (replicate (length (points_ source)) 0%float,
             replicate (length (points_ source)) msg_p2p)).
Proof.
  intros Hc Hsize. split; [by apply point_to_cloud_distance_map|].
  intros Htarget. rewrite point_to_cloud_distance_map, Htarget by done.
  f_equal. f_equal.
  - rewrite <- map_const_replicate. apply map_ext. intros p.
    by rewrite nearest_target_distance_empty.
  - rewrite <- concat_map_singleton. f_equal. apply map_ext. intros p.
    by rewrite nearest_target_distance_empty.
Qed.

(** C5: the distance of every point is the square root of the second
    squared distance the index over the cloud itself returns for a query of
    two neighbours, or 0.0 with a diagnostic when it returns fewer than
    two; for two coincident points (of finite coordinates) both distances
    are 0.0. *)
Theorem nearest_neighbor_distance_per_point SearchKNN input :
  knn_contract SearchKNN →
  (Z.of_nat (length (points_ input)) ≤ INT_MAX)%Z →
  ComputePointCloudNearestNeighborDistance SearchKNN input
  = Some (map (λ p, (nearest_other_distance SearchKNN (points_ input) p).1) (points_ input),
          concat (map (λ p, (nearest_other_distance SearchKNN (points_ input) p).2)
                      (points_ input)))
  ∧ (∀ p, points_ input = [p; p] → finite_vector p = true →
     ComputePointCloudNearestNeighborDistance SearchKNN input
     = Some ([0%float; 0%float], [])).
Proof.
  intros Hc Hsize. split; [by apply nearest_neighbor_distance_map|].
  intros p Hinput Hp. rewrite nearest_neighbor_distance_map, Hinput by done.
  cbn [map concat]. by rewrite nearest_other_distance_coincident.
Qed.

Lemma point_to_cloud_distance_witness :
  ComputePointCloudToPointCloudDistance brute_force_knn planar_source unit_target
  = Some (map (λ p, (nearest_target_distance brute_force_knn (points_ unit_target) p).1)
              (points_ planar_source),
          concat (map (λ p, (nearest_target_distance brute_force_knn (points_ unit_target) p).2)
                      (points_ planar_source)))
  ∧ (points_ unit_target = [] →
     ComputePointCloudToPointCloudDistance brute_force_knn planar_source unit_target
     = Some (replicate (length (points_ planar_source)) 0%float,
             replicate (length (points_ planar_source)) msg_p2p)).
Proof.
  apply (point_to_cloud_distance_per_point brute_force_knn planar_source unit_target
           brute_force_meets_contract).
  unfold INT_MAX. simpl. lia.
Defined.

Example point_to_cloud_distances :
  ComputePointCloudToPointCloudDistance brute_force_knn planar_source unit_target
  = Some ([1%float; PrimFloat.sqrt 20], [])
  ∧ ComputePointCloudToPointCloudDistance brute_force_knn planar_source empty_cloud
    = Some ([0%float; 0%float], [msg_p2p; msg_p2p])
  ∧ ComputePointCloudToPointCloudDistance brute_force_knn planar_source planar_source
    = Some ([0%float; 0%float], []).
Proof. repeat split; reflexivity. Qed.

Lemma nearest_neighbor_distance_witness :
  ComputePointCloudNearestNeighborDistance brute_force_knn coincident_cloud
  = Some (map (λ p, (nearest_other_distance brute_force_knn (points_ coincident_cloud) p).1)
              (points_ coincident_cloud),
          concat (map (λ p, (nearest_other_distance brute_force_knn (points_ coincident_cloud) p).2)
                      (points_ coincident_cloud)))
  ∧ (∀ p, points_ coincident_cloud = [p; p] → finite_vector p = true →
     ComputePointCloudNearestNeighborDistance brute_force_knn coincident_cloud
     = Some ([0%float; 0%float], [])).
Proof.
  apply (nearest_neighbor_distance_per_point brute_force_knn coincident_cloud
           brute_force_meets_contract).
  unfold INT_MAX. simpl. lia.
Defined.

Example nearest_neighbor_distances :
  ComputePointCloudNearestNeighborDistance brute_force_knn coincident_cloud
  = Some ([0%float; 0%float], [])
  ∧ ComputePointCloudNearestNeighborDistance brute_force_knn planar_source
    = Some ([5%float; 5%float], [])
  ∧ ComputePointCloudNearestNeighborDistance brute_force_knn unit_target
    = Some ([0%float], [msg_nn]).
Proof. repeat split; reflexivity. Qed.

(** ** Device mirrors *)

Lemma cudaFree_handle p w m : handle m (cudaFree p w).2 = handle m w.
Proof.
  unfold cudaFree, answer. destruct (answers (device w)) as [|st rest]; cbn.
  - by destruct m.
  - destruct st; by destruct m.
Qed.

Lemma cudaMemcpy_handle dst src count w m : handle m (cudaMemcpy dst src count w).2 = handle m w.
Proof.
  unfold cudaMemcpy, answer. destruct (answers (device w)) as [|st rest], dst; cbn.
  - by destruct m.
  - by destruct m.
  - destruct st; by destruct m.
  - by destruct m.
Qed.

Lemma cudaMalloc_handle slot size w m :
  m ≠ slot → handle m (cudaMalloc slot size w).2 = handle m w.
Proof.
  intros Hm. unfold cudaMalloc, answer. destruct (answers (device w)) as [|st rest]; cbn.
  - by destruct m, slot.
  - destruct st; by destruct m, slot.
Qed.

Lemma set_handle_other m slot p w : m ≠ slot → handle m (set_handle slot p w) = handle m w.
Proof. by destruct m, slot. Qed.

Lemma printf_handle st w m : handle m (printf st w) = handle m w.
Proof. by destruct m. Qed.

(** The refresh of one mirror leaves the two other handles alone. *)
Lemma refresh_keeps_other_handles slot data w m :
  m ≠ slot → handle m (UpdateDeviceMemory_data slot data w).2 = handle m w.
Proof.
  intros Hm. unfold UpdateDeviceMemory_data.
  assert (Hbody : ∀ w0,
    handle m
      (let '(status, w1) := cudaMalloc slot (length data * sizeof_Vector3d) w0 in
       if negb (is_success status) then (Some false, w1)
       else
         let '(status0, w2) :=
           cudaMemcpy (handle slot w1) data (length data * sizeof_Vector3d) w1 in
         if negb (is_success status0) then (Some true, printf status0 w2) else (None, w2)).2
    = handle m w0).
  { intros w0.
    pose proof (cudaMalloc_handle slot (length data * sizeof_Vector3d) w0 m Hm) as H1.
    destruct (cudaMalloc slot (length data * sizeof_Vector3d) w0) as [st w1].
    cbn [snd] in H1. destruct (negb (is_success st)); [done|].
    pose proof (cudaMemcpy_handle (handle slot w1) data (length data * sizeof_Vector3d) w1 m)
      as H2.
    destruct (cudaMemcpy (handle slot w1) data (length data * sizeof_Vector3d) w1) as [st2 w2].
    cbn [snd] in H2. destruct (negb (is_success st2)); cbn [snd];
      rewrite ?printf_handle; congruence. }
  destruct (handle slot w) as [p|]; [|apply Hbody].
  pose proof (cudaFree_handle p w m) as H1.
  destruct (cudaFree p w) as [st w1]. cbn [snd] in H1.
  destruct (negb (is_success st)); [done|].
  rewrite Hbody, set_handle_other by done. done.
Qed.

(** C4 as stated fails: with all handles null and a device that refuses
    every allocation, [UpdateDeviceMemory] stops after the points; running
    every refresh would have asked for the normals and the colors as well. *)
Lemma update_device_memory_skips_later_refreshes :
  let w := fresh_cuda [out_of_memory; out_of_memory; out_of_memory] in
  UpdateDeviceMemory w
  = (Some false,
     mkCudaCloud full_cloud None None None
       (mkDevice [out_of_memory; out_of_memory] 1 ∅ [CudaMalloc d_points 24]))
  ∧ refresh_all_three w
    = (Some false,
       mkCudaCloud full_cloud None None None
         (mkDevice [] 1 ∅
            [CudaMalloc d_points 24; CudaMalloc d_normals 24; CudaMalloc d_colors 24]))
  ∧ UpdateDeviceMemory w ≠ refresh_all_three w.
Proof. cbv zeta. repeat split. intros H. vm_compute in H. discriminate. Qed.

(** C4, amended: [UpdateDeviceMemory] runs the refreshes in the order
    points, normals, colors and stops at the first one that returns false:
    it then returns false, whether that refresh is the first, the second
    or the third, and the mirrors after it are left as they were.  After
    two refreshes that returned true its outcome is that of the refresh
    of the colors.  It returns true exactly when the three refreshes, run
    one after the other, have each returned true. *)
Theorem update_device_memory_stops_at_first_failure w :
  (∀ w1, UpdateDevicePoints w = (Some false, w1) →
     UpdateDeviceMemory w = (Some false, w1)
     ∧ d_normals_ w1 = d_normals_ w ∧ d_colors_ w1 = d_colors_ w) ∧
  (∀ w1 w2, UpdateDevicePoints w = (Some true, w1) →
     UpdateDeviceNormals w1 = (Some false, w2) →
     UpdateDeviceMemory w = (Some false, w2) ∧ d_colors_ w2 = d_colors_ w) ∧
  (∀ w1 w2 w3, UpdateDevicePoints w = (Some true, w1) →
     UpdateDeviceNormals w1 = (Some true, w2) →
     UpdateDeviceColors w2 = (Some false, w3) →
     UpdateDeviceMemory w = (Some false, w3)) ∧
  (∀ w1 w2, UpdateDevicePoints w = (Some true, w1) →
     UpdateDeviceNormals w1 = (Some true, w2) →
     UpdateDeviceMemory w = UpdateDeviceColors w2) ∧
  (∀ w', UpdateDeviceMemory w = (Some true, w') ↔ refresh_all_three w = (Some true, w')).
Proof.
  pose proof (refresh_keeps_other_handles d_points (points_ (host w)) w) as Hp.
  fold (UpdateDevicePoints w) in Hp.
  split; [|split; [|split; [|split]]].
  - intros w1 H1. unfold UpdateDeviceMemory, and_also. rewrite H1 in *. cbn [snd] in Hp.
    repeat split.
    + by apply (Hp d_normals).
    + by apply (Hp d_colors).
  - intros w1 w2 H1 H2.
    pose proof (refresh_keeps_other_handles d_normals (normals_ (host w1)) w1 d_colors) as Hn.
    fold (UpdateDeviceNormals w1) in Hn.
    unfold UpdateDeviceMemory, and_also. rewrite H1 in *. rewrite H2 in *. cbn [snd] in *.
    split; [done|]. transitivity (d_colors_ w1); [by apply Hn | by apply (Hp d_colors)].
  - intros w1 w2 w3 H1 H2 H3. unfold UpdateDeviceMemory, and_also. by rewrite H1, H2, H3.
  - intros w1 w2 H1 H2. unfold UpdateDeviceMemory, and_also. rewrite H1, H2.
    by destruct (UpdateDeviceColors w2) as [[[]|] w3].
  - intros w'. unfold UpdateDeviceMemory, refresh_all_three, and_also.
    destruct (UpdateDevicePoints w) as [p w1].
    destruct (UpdateDeviceNormals w1) as [n w2] eqn:Hn.
    destruct (UpdateDeviceColors w2) as [c w3] eqn:Hc.
    destruct p as [[]|], n as [[]|]; rewrite ?Hn, ?Hc; cbn [and_outcomes andb];
      try (destruct c as [[]|]); cbn [and_outcomes andb]; split; congruence.
Qed.

(** A failure of the second refresh: the normals are asked for and refused,
    the colors are not asked for. *)
Example update_device_memory_stops_at_the_normals :
  let unspecified := cudaErrorCode 30 in
  let w := fresh_cuda [cudaSuccess; unspecified; out_of_memory] in
  (UpdateDeviceMemory w).1 = Some false
  ∧ calls (device (UpdateDeviceMemory w).2)
    = [CudaMalloc d_points 24; CudaMemcpy (Some 1) 24; Printf unspecified;
       CudaMalloc d_normals 24]
  ∧ d_colors_ (UpdateDeviceMemory w).2 = None.
Proof. repeat split; reflexivity. Qed.

(** A failure of the third refresh, after two refreshes that returned
    true: false is returned. *)
Example update_device_memory_stops_at_the_colors :
  let unspecified := cudaErrorCode 30 in
  let w := fresh_cuda [cudaSuccess; unspecified; cudaSuccess; unspecified; out_of_memory] in
  (UpdateDeviceMemory w).1 = Some false
  ∧ calls (device (UpdateDeviceMemory w).2)
    = [CudaMalloc d_points 24; CudaMemcpy (Some 1) 24; Printf unspecified;
       CudaMalloc d_normals 24; CudaMemcpy (Some 2) 24; Printf unspecified;
       CudaMalloc d_colors 24]
  ∧ d_colors_ (UpdateDeviceMemory w).2 = None.
Proof. repeat split; reflexivity. Qed.

(** The three refreshes all run when the earlier ones return true; here the
    copies fail, which the refresh of one mirror reports by [true]. *)
Example update_device_memory_runs_all_three :
  let unspecified := cudaErrorCode 30 in
  let w := fresh_cuda [cudaSuccess; unspecified; cudaSuccess; unspecified; cudaSuccess; unspecified] in
  (UpdateDeviceMemory w).1 = Some true
  ∧ calls (device (UpdateDeviceMemory w).2)
    = [CudaMalloc d_points 24; CudaMemcpy (Some 1) 24; Printf unspecified;
       CudaMalloc d_normals 24; CudaMemcpy (Some 2) 24; Printf unspecified;
       CudaMalloc d_colors 24; CudaMemcpy (Some 3) 24; Printf unspecified].
Proof. split; reflexivity. Qed.

(** When every call succeeds the refresh of the points reaches the end of
    its body with no [return], and [UpdateDeviceMemory] has no value. *)
Example update_device_memory_on_success :
  UpdateDevicePoints (fresh_cuda []) 
  = (None, mkCudaCloud full_cloud (Some 1) None None
             (mkDevice [] 2 {[1 := mkBuffer 24 (Some [Vec3 1 2 3])]}
                [CudaMalloc d_points 24; CudaMemcpy (Some 1) 24]))
  ∧ (UpdateDeviceMemory (fresh_cuda [])).1 = None.
Proof. split; reflexivity. Qed.

(** [ReleaseDeviceMemory(d_data)] on a null handle does nothing and returns
    true. *)
Lemma release_null_handle m w :
  handle m w = None → ReleaseDeviceMemory_data m w = (Some true, w).
Proof. intros H. unfold ReleaseDeviceMemory_data. by rewrite H. Qed.

(** On a handle that is set, when [cudaFree] succeeds, the buffer is freed
    and the handle is null, but no [return] is reached. *)
Lemma release_set_handle m w p :
  handle m w = Some p →
  is_success (cudaFree p w).1 = true →
  ∃ w', ReleaseDeviceMemory_data m w = (None, w')
        ∧ handle m w' = None
        ∧ buffers (device w') !! p = None.
Proof.
  intros H Hst. unfold ReleaseDeviceMemory_data. rewrite H.
  unfold cudaFree, answer in *. destruct (answers (device w)) as [|st rest]; cbn in *.
  - eexists. split; [done|]. split; [by destruct m|]. destruct m; apply lookup_delete_eq.
  - destruct st; [|done]. cbn.
    eexists. split; [done|]. split; [by destruct m|]. destruct m; apply lookup_delete_eq.
Qed.

(** When [cudaFree] fails, false is returned and the handle stays set. *)
Lemma release_failed_free m w p :
  handle m w = Some p →
  is_success (cudaFree p w).1 = false →
  ∃ w', ReleaseDeviceMemory_data m w = (Some false, w') ∧ handle m w' = Some p.
Proof.
  intros H Hst. unfold ReleaseDeviceMemory_data. rewrite H.
  pose proof (cudaFree_handle p w m) as Hh.
  destruct (cudaFree p w) as [st w1]. cbn [fst snd] in *. rewrite Hst. cbn.
  eexists. split; [done|]. congruence.
Qed.

(** C7: the code at the failing inputs.  Whenever the handle is set and
    [cudaFree] succeeds, the first release frees the buffer and nulls the
    handle but reaches the end of the function without a [return]: it has
    no value, where the claim says it returns success.  The second release,
    on the null handle, returns true and changes nothing. *)
Theorem release_twice_first_returns_no_value m w p :
  handle m w = Some p →
  is_success (cudaFree p w).1 = true →
  ∃ w', ReleaseDeviceMemory_data m w = (None, w')
        ∧ ReleaseDeviceMemory_data m w ≠ (Some true, w')
        ∧ handle m w' = None
        ∧ buffers (device w') !! p = None
        ∧ ReleaseDeviceMemory_data m w' = (Some true, w').
Proof.
  intros Hp Hfree.
  destruct (release_set_handle m w p Hp Hfree) as (w' & Hrel & Hnull & Hfreed).
  exists w'. rewrite Hrel. repeat split; try done.
  by apply release_null_handle.
Qed.

Lemma release_twice_witness :
  ∃ w', ReleaseDeviceMemory_data d_points (mirrored_cuda []) = (None, w')
        ∧ ReleaseDeviceMemory_data d_points (mirrored_cuda []) ≠ (Some true, w')
        ∧ handle d_points w' = None
        ∧ buffers (device w') !! 7 = None
        ∧ ReleaseDeviceMemory_data d_points w' = (Some true, w').
Proof.
  apply (release_twice_first_returns_no_value d_points (mirrored_cuda []) 7); reflexivity.
Defined.

(** The same run, spelled out, and a run where [cudaFree] fails. *)
Example release_of_the_points_mirror :
  let w' := mkCudaCloud full_cloud None None None (mkDevice [] 8 ∅ [CudaFree 7]) in
  ReleaseDeviceMemory_data d_points (mirrored_cuda []) = (None, w')
  ∧ ReleaseDeviceMemory_data d_points w' = (Some true, w')
  ∧ (ReleaseDeviceMemory_data d_points (mirrored_cuda [cudaErrorCode 1])).1 = Some false
  ∧ d_points_ (ReleaseDeviceMemory_data d_points (mirrored_cuda [cudaErrorCode 1])).2 = Some 7.
Proof. repeat split; reflexivity. Qed.

(** * Further properties of the code *)

(** ** Bounds *)

Lemma lower_bound_on_axis k p ps :
  no_nan (axis k (p :: ps)) = true →
  Forall (λ q, PrimFloat.leb (coeff ((p :: ps) !!! min_element (less_on k) (p :: ps)) k)
                             (coeff q k) = true) (p :: ps).
Proof.
  intros Hn. pose proof (minimum_is_lower_bound _ _ Hn (min_on_axis k p ps)) as H.
  unfold axis in H. by apply Forall_fmap in H.
Qed.

Lemma upper_bound_on_axis k p ps :
  no_nan (axis k (p :: ps)) = true →
  Forall (λ q, PrimFloat.leb (coeff q k)
                             (coeff ((p :: ps) !!! max_element (less_on k) (p :: ps)) k) = true)
         (p :: ps).
Proof.
  intros Hn. pose proof (maximum_is_upper_bound _ _ Hn (max_on_axis k p ps)) as H.
  unfold axis in H. by apply Forall_fmap in H.
Qed.

Lemma bounds_ordered_on_axis k p ps :
  no_nan (axis k (p :: ps)) = true →
  PrimFloat.leb (coeff ((p :: ps) !!! min_element (less_on k) (p :: ps)) k)
                (coeff ((p :: ps) !!! max_element (less_on k) (p :: ps)) k) = true.
Proof.
  intros Hn. pose proof (minimum_is_lower_bound _ _ Hn (min_on_axis k p ps)) as H.
  rewrite Forall_forall in H. apply H. apply (max_on_axis k p ps).
Qed.

(** X1: when no coordinate is NaN, every point of the cloud lies in the box
    spanned by [GetMinBound] and [GetMaxBound], and the lower corner is
    below the upper corner on every axis. *)
Theorem every_point_inside_the_bounds pc :
  no_nan (axis 0 (points_ pc)) = true →
  no_nan (axis 1 (points_ pc)) = true →
  no_nan (axis 2 (points_ pc)) = true →
  Forall (λ q, inside_box (GetMinBound pc) (GetMaxBound pc) q = true) (points_ pc)
  ∧ box_ordered (GetMinBound pc) (GetMaxBound pc) = true.
Proof.
  destruct pc as [[|p ps] normals colors]; [by split; [constructor|]|].
  cbn [points_]. intros H0 H1 H2. split.
  - apply Forall_forall. intros q Hq.
    pose proof (lower_bound_on_axis 0 p ps H0) as L0.
    pose proof (lower_bound_on_axis 1 p ps H1) as L1.
    pose proof (lower_bound_on_axis 2 p ps H2) as L2.
    pose proof (upper_bound_on_axis 0 p ps H0) as U0.
    pose proof (upper_bound_on_axis 1 p ps H1) as U1.
    pose proof (upper_bound_on_axis 2 p ps H2) as U2.
    rewrite Forall_forall in L0, L1, L2, U0, U1, U2.
    unfold inside_box, GetMinBound, GetMaxBound.
    cbn [HasPoints points_ length Nat.eqb negb vx vy vz].
    rewrite !andb_true_iff. repeat split.
    + apply (L0 q Hq).
    + apply (U0 q Hq).
    + apply (L1 q Hq).
    + apply (U1 q Hq).
    + apply (L2 q Hq).
    + apply (U2 q Hq).
  - unfold box_ordered, GetMinBound, GetMaxBound.
    cbn [HasPoints points_ length Nat.eqb negb vx vy vz].
    rewrite !andb_true_iff. repeat split.
    + by apply (bounds_ordered_on_axis 0).
    + by apply (bounds_ordered_on_axis 1).
    + by apply (bounds_ordered_on_axis 2).
Qed.

Lemma every_point_inside_the_bounds_witness :
  Forall (λ q, inside_box (GetMinBound four_points) (GetMaxBound four_points) q = true)
         (points_ four_points)
  ∧ box_ordered (GetMinBound four_points) (GetMaxBound four_points) = true.
Proof. apply (every_point_inside_the_bounds four_points); reflexivity. Defined.

(** ** [Transform] *)

Lemma Transform_lengths M pc :
  length (points_ (Transform M pc)) = length (points_ pc) ∧
  length (normals_ (Transform M pc)) = length (normals_ pc) ∧
  colors_ (Transform M pc) = colors_ pc.
Proof.
  unfold Transform. cbn [points_ normals_ colors_].
  by rewrite !range_for_map, !length_map.
Qed.

Lemma Transform_presence M pc :
  IsEmpty (Transform M pc) = IsEmpty pc ∧
  HasNormals (Transform M pc) = HasNormals pc ∧
  HasColors (Transform M pc) = HasColors pc.
Proof.
  destruct (Transform_lengths M pc) as (Hp & Hn & Hc).
  unfold IsEmpty, HasNormals, HasColors, HasPoints. by rewrite Hp, Hn, Hc.
Qed.

(** X2: [Transform] keeps the number of points, of normals and of colors,
    hence emptiness, the presence of each attribute, and the data-model
    invariant. *)
Theorem transform_keeps_the_shape M pc :
  length (points_ (Transform M pc)) = length (points_ pc) ∧
  length (normals_ (Transform M pc)) = length (normals_ pc) ∧
  length (colors_ (Transform M pc)) = length (colors_ pc) ∧
  IsEmpty (Transform M pc) = IsEmpty pc ∧
  HasNormals (Transform M pc) = HasNormals pc ∧
  HasColors (Transform M pc) = HasColors pc ∧
  (well_formed pc → well_formed (Transform M pc)).
Proof.
  destruct (Transform_lengths M pc) as (Hp & Hn & Hc).
  destruct (Transform_presence M pc) as (He & Hhn & Hhc).
  unfold well_formed. rewrite Hp, Hn, Hc. repeat split; tauto.
Qed.

(** ** Concatenation *)

Lemma IsEmpty_true_points B : IsEmpty B = true → points_ B = [].
Proof.
  unfold IsEmpty, HasPoints. intros H. apply nil_length_inv.
  destruct (Nat.eqb_spec (length (points_ B)) 0); [done | discriminate].
Qed.

Lemma operator_plus_assign_value uninit this cloud (h : Heap) A B :
  h !! this = Some A → h !! cloud = Some B →
  operator_plus_assign uninit this cloud h = Some (<[this := plus_value A B]> h).
Proof.
  intros HA HB. unfold plus_value. destruct (IsEmpty B) eqn:HeB.
  - rewrite insert_id by done. by eapply operator_plus_assign_empty.
  - by apply operator_plus_assign_nonempty.
Qed.

Lemma points_plus_value A B : points_ (plus_value A B) = points_ A ++ points_ B.
Proof.
  unfold plus_value. destruct (IsEmpty B) eqn:HeB; [|done].
  by rewrite (IsEmpty_true_points B HeB), app_nil_r.
Qed.

Lemma concat_attr_length (pa xa pb xb : list Vector3d) :
  let keep := (negb (negb (length pa =? 0)) || negb (length pa =? 0) && (length xa =? length pa))
              && (negb (length pb =? 0) && (length xb =? length pb)) in
  length (concat_attr keep (length pa) xa xb) = 0
  ∨ length (concat_attr keep (length pa) xa xb) = length (pa ++ pb).
Proof.
  cbv zeta. match goal with |- context [concat_attr ?k] => destruct k eqn:Hk end.
  - apply keep_lengths in Hk as [H1 H2]. right. cbn [concat_attr].
    rewrite !length_app, length_take. lia.
  - by left.
Qed.

Lemma well_formed_concat A B : well_formed (concat_clouds A B).
Proof.
  destruct A as [pa na ca], B as [pb nb cb]. split.
  - apply (concat_attr_length pa na pb nb).
  - apply (concat_attr_length pa ca pb cb).
Qed.

(** X3: [A += B] never reads or writes outside a vector; it leaves in [A]
    the points of [A] followed by those of [B], also when [B] is [A] itself
    or has no points, and it changes no other object: [B], when it is
    another object, and every other cloud are as before. *)
Theorem plus_assign_appends_points_and_frames uninit this cloud (h : Heap) A B :
  h !! this = Some A → h !! cloud = Some B →
  ∃ h' A', operator_plus_assign uninit this cloud h = Some h'
    ∧ h' !! this = Some A'
    ∧ points_ A' = points_ A ++ points_ B
    ∧ (this ≠ cloud → h' !! cloud = Some B)
    ∧ (∀ other, other ≠ this → h' !! other = h !! other).
Proof.
  intros HA HB. exists (<[this := plus_value A B]> h), (plus_value A B).
  split; [by apply operator_plus_assign_value|].
  split; [apply lookup_insert_eq|].
  split; [apply points_plus_value|].
  split.
  - intros Hne. by rewrite lookup_insert_ne.
  - intros other Hne. by rewrite lookup_insert_ne.
Qed.

Lemma plus_assign_appends_points_witness :
  ∃ h' A', operator_plus_assign stale 0 1 (heap_of normals_cloud) = Some h'
    ∧ h' !! 0 = Some A'
    ∧ points_ A' = points_ full_cloud ++ points_ normals_cloud
    ∧ (0 ≠ 1 → h' !! 1 = Some normals_cloud)
    ∧ (∀ other, other ≠ 0 → h' !! other = heap_of normals_cloud !! other).
Proof.
  apply (plus_assign_appends_points_and_frames stale 0 1 (heap_of normals_cloud)
           full_cloud normals_cloud); reflexivity.
Defined.

(** X4: the result of [A += B] obeys the data-model invariant (each
    attribute sequence empty or as long as the points) whenever [B] has
    points, whatever [A] held before, and whenever [A] obeyed it. *)
Theorem plus_assign_keeps_the_invariant uninit this cloud (h : Heap) A B :
  h !! this = Some A → h !! cloud = Some B →
  ∃ A', operator_plus_assign uninit this cloud h = Some (<[this := A']> h)
    ∧ (IsEmpty B = false → well_formed A')
    ∧ (well_formed A → well_formed A').
Proof.
  intros HA HB. exists (plus_value A B).
  split; [by apply operator_plus_assign_value|].
  unfold plus_value. destruct (IsEmpty B); split; try done; intros _; apply well_formed_concat.
Qed.

Lemma plus_assign_keeps_the_invariant_witness :
  ∃ A', operator_plus_assign stale 0 1 (heap_of normals_cloud)
        = Some (<[0 := A']> (heap_of normals_cloud))
    ∧ (IsEmpty normals_cloud = false → well_formed A')
    ∧ (well_formed full_cloud → well_formed A').
Proof.
  apply (plus_assign_keeps_the_invariant stale 0 1 (heap_of normals_cloud)
           full_cloud normals_cloud); reflexivity.
Defined.

(** X5: added to a cloud without points, a cloud [B] that has points and
    obeys the invariant is copied as it is, even if the empty cloud held
    stale normals or colors. *)
Theorem empty_plus_assign_copies uninit this cloud (h : Heap) A B :
  h !! this = Some A → h !! cloud = Some B →
  IsEmpty A = true → IsEmpty B = false → well_formed B →
  operator_plus_assign uninit this cloud h = Some (<[this := B]> h).
Proof.
  intros HA HB HeA HeB [Hn Hc].
  rewrite (operator_plus_assign_nonempty uninit this cloud h A B) by done.
  do 2 f_equal. unfold concat_clouds. rewrite HeA, (IsEmpty_true_points A HeA).
  cbn [orb andb length app]. apply IsEmpty_false_length in HeB.
  destruct B as [pb nb cb]. cbn [points_ normals_ colors_] in *.
  unfold HasNormals, HasColors, HasPoints. cbn [points_ normals_ colors_].
  destruct (Nat.eqb_spec (length pb) 0); [done|]. cbn [negb andb].
  f_equal.
  - destruct (Nat.eqb_spec (length nb) (length pb)); cbn [concat_attr]; [by rewrite take_0|].
    symmetry. apply nil_length_inv. lia.
  - destruct (Nat.eqb_spec (length cb) (length pb)); cbn [concat_attr]; [by rewrite take_0|].
    symmetry. apply nil_length_inv. lia.
Qed.

Lemma empty_plus_assign_copies_witness :
  operator_plus_assign stale 1 0 (heap_of (mkPointCloud [] [Vec3 7 7 7] []))
  = Some (<[1 := full_cloud]> (heap_of (mkPointCloud [] [Vec3 7 7 7] []))).
Proof.
  apply (empty_plus_assign_copies stale 1 0 (heap_of (mkPointCloud [] [Vec3 7 7 7] []))
           (mkPointCloud [] [Vec3 7 7 7] []) full_cloud);
    try reflexivity.
  split; right; reflexivity.
Defined.

Lemma IsEmpty_concat A B : IsEmpty B = false → IsEmpty (concat_clouds A B) = false.
Proof.
  intros HB%IsEmpty_false_length. unfold IsEmpty, HasPoints, concat_clouds.
  cbn [points_]. rewrite length_app.
  destruct (Nat.eqb_spec (length (points_ A) + length (points_ B)) 0); [lia | done].
Qed.

Lemma HasNormals_lengths A :
  HasNormals A = true → length (normals_ A) = length (points_ A).
Proof. unfold HasNormals. by intros [_ H%Nat.eqb_eq]%andb_true_iff. Qed.

Lemma HasColors_lengths A :
  HasColors A = true → length (colors_ A) = length (points_ A).
Proof. unfold HasColors. by intros [_ H%Nat.eqb_eq]%andb_true_iff. Qed.

(** The attribute part of associativity, on the sequences themselves: [ha],
    [hb], [hc] tell whether the three clouds have the attribute. *)
Lemma concat_attr_assoc (ea ha hb hc : bool) (na nb : nat) (xa xb xc : list Vector3d) :
  (ea = true → na = 0) →
  (ha = true → length xa = na) →
  (hb = true → length xb = nb) →
  concat_attr ((false || hb && (ha || ea)) && hc) (na + nb)
    (concat_attr ((ea || ha) && hb) na xa xb) xc
  = concat_attr ((ea || ha) && (hc && (hb || false))) na xa
      (concat_attr ((false || hb) && hc) nb xb xc).
Proof.
  intros Hea Hha Hhb. rewrite (orb_comm ha ea).
  assert (Hlen : ea || ha = true → length (take na xa) = na).
  { intros [H | H]%orb_true_iff; rewrite length_take; [rewrite Hea by done|rewrite Hha by done]; lia. }
  destruct (ea || ha), hb, hc; cbn [andb orb concat_attr]; try reflexivity.
  rewrite (take_ge (take na xa ++ xb)) by (rewrite length_app, Hlen, Hhb by done; lia).
  rewrite (take_ge xb) by (rewrite Hhb by done; lia).
  by rewrite app_assoc.
Qed.

Lemma plus_value_assoc A B C :
  plus_value (plus_value A B) C = plus_value A (plus_value B C).
Proof.
  unfold plus_value. destruct (IsEmpty C) eqn:HeC; [done|].
  rewrite (IsEmpty_concat B C HeC).
  pose proof (HasNormals_concat B C HeC) as HnBC.
  pose proof (HasColors_concat B C HeC) as HcBC.
  destruct (IsEmpty B) eqn:HeB.
  - (* B has no points *)
    pose proof (IsEmpty_true_points B HeB) as HpB.
    unfold concat_clouds at 1 2. rewrite HnBC, HcBC.
    unfold concat_clouds. cbn [points_ normals_ colors_]. rewrite HpB, HeB.
    cbn [app length orb andb]. rewrite !orb_true_r, !andb_true_r.
    f_equal.
    + destruct (HasNormals C); cbn [andb concat_attr]; rewrite ?andb_false_r; [|done].
      by rewrite take_0.
    + destruct (HasColors C); cbn [andb concat_attr]; rewrite ?andb_false_r; [|done].
      by rewrite take_0.
  - (* B has points *)
    pose proof (HasNormals_concat A B HeB) as HnAB.
    pose proof (HasColors_concat A B HeB) as HcAB.
    pose proof (IsEmpty_concat A B HeB) as HeAB.
    unfold concat_clouds at 1 3. rewrite HeAB, HnAB, HcAB, HnBC, HcBC.
    unfold concat_clouds. cbn [points_ normals_ colors_]. rewrite HeB.
    rewrite length_app, <- app_assoc. f_equal.
    + apply concat_attr_assoc.
      * intros HeA. by rewrite (IsEmpty_true_points A HeA).
      * apply HasNormals_lengths.
      * apply HasNormals_lengths.
    + apply concat_attr_assoc.
      * intros HeA. by rewrite (IsEmpty_true_points A HeA).
      * apply HasColors_lengths.
      * apply HasColors_lengths.
Qed.

Lemma operator_plus_is_plus_value uninit this cloud tmp (h : Heap) A B :
  h !! this = Some A → h !! cloud = Some B → tmp ≠ cloud →
  operator_plus uninit this cloud tmp h = Some (plus_value A B).
Proof. intros. unfold plus_value. by apply operator_plus_value. Qed.

(** X6: [A + B] is what [A += B] leaves in [A]: the same cloud is computed
    on a copy, also for [A + A]; the points of the sum are those of [A]
    followed by those of [B]. *)
Theorem plus_computes_what_plus_assign_leaves uninit this cloud tmp (h : Heap) A B :
  h !! this = Some A → h !! cloud = Some B → tmp ≠ cloud →
  ∃ R, operator_plus uninit this cloud tmp h = Some R
     ∧ operator_plus_assign uninit this cloud h = Some (<[this := R]> h)
     ∧ points_ R = points_ A ++ points_ B.
Proof.
  intros HA HB Hne. exists (plus_value A B).
  split; [by apply operator_plus_is_plus_value|].
  split; [by apply operator_plus_assign_value | apply points_plus_value].
Qed.

Lemma plus_computes_what_plus_assign_leaves_witness :
  ∃ R, operator_plus stale 1 1 5 three_clouds = Some R
     ∧ operator_plus_assign stale 1 1 three_clouds = Some (<[1 := R]> three_clouds)
     ∧ points_ R = points_ normals_cloud ++ points_ normals_cloud.
Proof.
  apply (plus_computes_what_plus_assign_leaves stale 1 1 5 three_clouds
           normals_cloud normals_cloud); [reflexivity | reflexivity | lia].
Defined.

(** X7: [+] is associative: with [A + B] stored at [x] and [B + C] stored
    at [y], [(A + B) + C] and [A + (B + C)] are the same cloud, whatever the
    three clouds hold. *)
Theorem plus_is_associative uninit a b c x y tmp (h : Heap) A B C :
  h !! a = Some A → h !! b = Some B → h !! c = Some C →
  tmp ≠ b → tmp ≠ c → tmp ≠ y → x ≠ c → y ≠ a →
  ∃ AB BC R,
    operator_plus uninit a b tmp h = Some AB
    ∧ operator_plus uninit b c tmp h = Some BC
    ∧ operator_plus uninit x c tmp (<[x := AB]> h) = Some R
    ∧ operator_plus uninit a y tmp (<[y := BC]> h) = Some R.
Proof.
  intros HA HB HC Htb Htc Hty Hxc Hya.
  exists (plus_value A B), (plus_value B C), (plus_value (plus_value A B) C).
  split; [by apply operator_plus_is_plus_value|].
  split; [by apply operator_plus_is_plus_value|].
  split.
  - apply operator_plus_is_plus_value; [apply lookup_insert_eq | | done].
    by rewrite lookup_insert_ne.
  - rewrite plus_value_assoc.
    apply operator_plus_is_plus_value; [| apply lookup_insert_eq | done].
    by rewrite lookup_insert_ne.
Qed.

Lemma plus_is_associative_witness :
  ∃ AB BC R,
    operator_plus stale 0 1 5 three_clouds = Some AB
    ∧ operator_plus stale 1 2 5 three_clouds = Some BC
    ∧ operator_plus stale 3 2 5 (<[3 := AB]> three_clouds) = Some R
    ∧ operator_plus stale 0 4 5 (<[4 := BC]> three_clouds) = Some R.
Proof.
  apply (plus_is_associative stale 0 1 2 3 4 5 three_clouds
           full_cloud normals_cloud planar_source); first [reflexivity | lia].
Defined.

(** ** Loops counted by an [int] *)

Lemma turns_le n : turns n ≤ n.
Proof.
  unfold turns, int_cast. change (2 ^ 31)%Z with 2147483648%Z.
  change (2 ^ 32)%Z with 4294967296%Z.
  pose proof (Z.mod_pos_bound (Z.of_nat n) 4294967296 ltac:(lia)).
  pose proof (Z.mod_le (Z.of_nat n) 4294967296 ltac:(lia) ltac:(lia)).
  destruct (Z.ltb_spec (Z.of_nat n mod 4294967296) 2147483648); lia.
Qed.

Lemma turns_small n : (Z.of_nat n ≤ INT_MAX)%Z → turns n = n.
Proof. apply int_cast_small. Qed.

Lemma turns_overflow n : (2 ^ 31 ≤ Z.of_nat n < 2 ^ 32)%Z → turns n = 0.
Proof.
  unfold turns, int_cast. change (2 ^ 31)%Z with 2147483648%Z.
  change (2 ^ 32)%Z with 4294967296%Z. intros Hn.
  rewrite Z.mod_small by lia.
  destruct (Z.ltb_spec (Z.of_nat n) 2147483648); lia.
Qed.

(** A loop of [n] turns from [i] fills the slots [i .. i + n - 1] and leaves
    the others. *)
Lemma for_loop_fills_slots (pts : list Vector3d) (f : Vector3d → float)
    (body : nat → list float → option (list float)) :
  (∀ i p out, pts !! i = Some p → i < length out →
     body i out = Some (<[i := f p]> out)) →
  ∀ n i out,
    i + n ≤ length pts → length out = length pts →
    for_loop body i n out
    = Some (take i out ++ map f (take n (drop i pts)) ++ drop (i + n) out).
Proof.
  intros Hbody. induction n as [|n IH]; intros i out Hi Hlen; cbn [for_loop].
  - rewrite take_0, Nat.add_0_r. cbn [map app]. by rewrite take_drop.
  - destruct (lookup_lt_is_Some_2 pts i) as [p Hp]; [lia|].
    rewrite (Hbody i p) by (done || lia). cbn [mbind option_bind].
    rewrite IH by (rewrite ?length_insert; lia).
    rewrite (drop_S _ _ _ Hp). cbn [take map].
    erewrite take_S_r by (apply list_lookup_insert_eq; lia).
    rewrite take_insert_ge, drop_insert_lt, <- !app_assoc by lia.
    cbn [app]. by replace (S i + n) with (i + S n) by lia.
Qed.

Lemma for_loop_fills_prefix (pts : list Vector3d) (slot : Vector3d → float * list string)
    (body : nat → list float * list string → option (list float * list string)) :
  (∀ i p out console, pts !! i = Some p → i < length out →
     body i (out, console) = Some (<[i := (slot p).1]> out, console ++ (slot p).2)) →
  ∀ n i out console,
    i + n ≤ length pts → length out = length pts →
    for_loop body i n (out, console)
    = Some (take i out ++ map (λ p, (slot p).1) (take n (drop i pts)) ++ drop (i + n) out,
            console ++ concat (map (λ p, (slot p).2) (take n (drop i pts)))).
Proof.
  intros Hbody. induction n as [|n IH]; intros i out console Hi Hlen; cbn [for_loop].
  - rewrite take_0, Nat.add_0_r. cbn [map app concat]. by rewrite take_drop, app_nil_r.
  - destruct (lookup_lt_is_Some_2 pts i) as [p Hp]; [lia|].
    rewrite (Hbody i p) by (done || lia). cbn [mbind option_bind].
    rewrite IH by (rewrite ?length_insert; lia).
    rewrite (drop_S _ _ _ Hp). cbn [take map concat].
    erewrite take_S_r by (apply list_lookup_insert_eq; lia).
    rewrite take_insert_ge, drop_insert_lt, <- !app_assoc by lia.
    cbn [app]. by replace (S i + n) with (i + S n) by lia.
Qed.

Section TruncatedLoops.
Variable SearchKNN : list Vector3d → Vector3d → Z → list Z → list float → KnnResult.
Hypothesis contract : knn_contract SearchKNN.

Lemma point_to_cloud_turn source target i p out console :
  points_ source !! i = Some p → i < length out →
  (let indices := replicate 1 0%Z in
   let dists := replicate 1 0%float in
   query ← points_ source !! i;
   let r := SearchKNN (points_ target) query 1 indices dists in
   if (knn_count r =? 0)%Z then
     distances' ← vec_store out i 0%float;
     Some (distances', console ++ [msg_p2p])
   else
     d ← knn_distance2 r !! 0;
     distances' ← vec_store out i (PrimFloat.sqrt d);
     Some (distances', console))
  = Some (<[i := (nearest_target_distance SearchKNN (points_ target) p).1]> out,
          console ++ (nearest_target_distance SearchKNN (points_ target) p).2).
Proof.
  intros Hp Hi. rewrite Hp. cbn [mbind option_bind replicate].
  unfold nearest_target_distance, vec_store.
  pose proof (contract_count SearchKNN contract (points_ target) p 1 [0%Z] [0%float]
                ltac:(lia)) as Hcount.
  destruct (Z.eqb_spec (knn_count (SearchKNN (points_ target) p 1 [0%Z] [0%float])) 0)
    as [Hz | Hnz].
  - rewrite decide_True by done. reflexivity.
  - rewrite (lookup_nth_float _ 0) by lia. cbn [mbind option_bind].
    rewrite decide_True by done. cbn [mbind option_bind fst snd].
    by rewrite app_nil_r.
Qed.

Lemma nearest_neighbor_turn input i p out console :
  points_ input !! i = Some p → i < length out →
  (let indices := replicate 2 0%Z in
   let dists := replicate 2 0%float in
   query ← points_ input !! i;
   let r := SearchKNN (points_ input) query 2 indices dists in
   if (knn_count r <=? 1)%Z then
     nn_dis' ← vec_store out i 0%float;
     Some (nn_dis', console ++ [msg_nn])
   else
     d ← knn_distance2 r !! 1;
     nn_dis' ← vec_store out i (PrimFloat.sqrt d);
     Some (nn_dis', console))
  = Some (<[i := (nearest_other_distance SearchKNN (points_ input) p).1]> out,
          console ++ (nearest_other_distance SearchKNN (points_ input) p).2).
Proof.
  intros Hp Hi. rewrite Hp. cbn [mbind option_bind replicate].
  unfold nearest_other_distance, vec_store.
  pose proof (contract_count SearchKNN contract (points_ input) p 2 [0%Z; 0%Z]
                [0%float; 0%float] ltac:(lia)) as Hcount.
  destruct (Z.leb_spec (knn_count (SearchKNN (points_ input) p 2 [0%Z; 0%Z] [0%float; 0%float])) 1)
    as [Hle | Hgt].
  - rewrite (proj2 (Z.ltb_lt _ 2)) by lia.
    rewrite decide_True by done. reflexivity.
  - rewrite (proj2 (Z.ltb_ge _ 2)) by lia.
    rewrite (lookup_nth_float _ 1) by lia. cbn [mbind option_bind].
    rewrite decide_True by done. cbn [mbind option_bind fst snd].
    by rewrite app_nil_r.
Qed.

Lemma point_to_cloud_distance_prefix source target :
  let pts := points_ source in
  let k := turns (length pts) in
  ComputePointCloudToPointCloudDistance SearchKNN source target
  = Some (map (λ p, (nearest_target_distance SearchKNN (points_ target) p).1) (take k pts)
          ++ replicate (length pts - k) 0%float,
          concat (map (λ p, (nearest_target_distance SearchKNN (points_ target) p).2)
                      (take k pts))).
Proof.
  cbv zeta. unfold ComputePointCloudToPointCloudDistance, for_int_below_size.
  fold (turns (length (points_ source))).
  pose proof (turns_le (length (points_ source))) as Hk.
  rewrite (for_loop_fills_prefix (points_ source)
             (nearest_target_distance SearchKNN (points_ target)));
    [| intros; by apply point_to_cloud_turn | lia | by rewrite length_replicate].
  by rewrite take_0, drop_0, drop_replicate.
Qed.

Lemma nearest_neighbor_distance_prefix input :
  let pts := points_ input in
  let k := turns (length pts) in
  ComputePointCloudNearestNeighborDistance SearchKNN input
  = Some (map (λ p, (nearest_other_distance SearchKNN pts p).1) (take k pts)
          ++ replicate (length pts - k) 0%float,
          concat (map (λ p, (nearest_other_distance SearchKNN pts p).2) (take k pts))).
Proof.
  cbv zeta. unfold ComputePointCloudNearestNeighborDistance, for_int_below_size.
  fold (turns (length (points_ input))).
  pose proof (turns_le (length (points_ input))) as Hk.
  rewrite (for_loop_fills_prefix (points_ input)
             (nearest_other_distance SearchKNN (points_ input)));
    [| intros; by apply nearest_neighbor_turn | lia | by rewrite length_replicate].
  by rewrite take_0, drop_0, drop_replicate.
Qed.
End TruncatedLoops.

(** X8: for a source of any size N, [ComputePointCloudToPointCloudDistance]
    returns N distances of which the first [(int)N] (the size converted to a
    32-bit int, none when that is negative) are computed and the others are
    left at 0.0; so for 2^31 <= N < 2^32 no point is looked up: all
    distances are 0.0 and nothing is printed. *)
Theorem point_to_cloud_distance_on_any_size SearchKNN source target :
  knn_contract SearchKNN →
  let pts := points_ source in
  let k := turns (length pts) in
  ComputePointCloudToPointCloudDistance SearchKNN source target
  = Some (map (λ p, (nearest_target_distance SearchKNN (points_ target) p).1) (take k pts)
          ++ replicate (length pts - k) 0%float,
          concat (map (λ p, (nearest_target_distance SearchKNN (points_ target) p).2)
                      (take k pts)))
  ∧ k ≤ length pts
  ∧ ((2 ^ 31 ≤ Z.of_nat (length pts) < 2 ^ 32)%Z →
     ComputePointCloudToPointCloudDistance SearchKNN source target
     = Some (replicate (length pts) 0%float, [])).
Proof.
  intros Hc pts k. subst pts k. split; [by apply point_to_cloud_distance_prefix|].
  split; [apply turns_le|]. intros Hbig.
  rewrite point_to_cloud_distance_prefix by done.
  rewrite (turns_overflow _ Hbig), take_0, Nat.sub_0_r. done.
Qed.

Lemma point_to_cloud_distance_on_any_size_witness :
  let pts := points_ planar_source in
  let k := turns (length pts) in
  ComputePointCloudToPointCloudDistance brute_force_knn planar_source unit_target
  = Some (map (λ p, (nearest_target_distance brute_force_knn (points_ unit_target) p).1)
              (take k pts)
          ++ replicate (length pts - k) 0%float,
          concat (map (λ p, (nearest_target_distance brute_force_knn (points_ unit_target) p).2)
                      (take k pts)))
  ∧ k ≤ length pts
  ∧ ((2 ^ 31 ≤ Z.of_nat (length pts) < 2 ^ 32)%Z →
     ComputePointCloudToPointCloudDistance brute_force_knn planar_source unit_target
     = Some (replicate (length pts) 0%float, [])).
Proof.
  apply (point_to_cloud_distance_on_any_size brute_force_knn planar_source unit_target).
  exact brute_force_meets_contract.
Defined.

(** X9: the same for [ComputePointCloudNearestNeighborDistance]: N
    distances, the first [(int)N] computed, the others 0.0; for
    2^31 <= N < 2^32 all are 0.0 and nothing is printed. *)
Theorem nearest_neighbor_distance_on_any_size SearchKNN input :
  knn_contract SearchKNN →
  let pts := points_ input in
  let k := turns (length pts) in
  ComputePointCloudNearestNeighborDistance SearchKNN input
  = Some (map (λ p, (nearest_other_distance SearchKNN pts p).1) (take k pts)
          ++ replicate (length pts - k) 0%float,
          concat (map (λ p, (nearest_other_distance SearchKNN pts p).2) (take k pts)))
  ∧ k ≤ length pts
  ∧ ((2 ^ 31 ≤ Z.of_nat (length pts) < 2 ^ 32)%Z →
     ComputePointCloudNearestNeighborDistance SearchKNN input
     = Some (replicate (length pts) 0%float, [])).
Proof.
  intros Hc pts k. subst pts k. split; [by apply nearest_neighbor_distance_prefix|].
  split; [apply turns_le|]. intros Hbig.
  rewrite nearest_neighbor_distance_prefix by done.
  rewrite (turns_overflow _ Hbig), take_0, Nat.sub_0_r. done.
Qed.

Lemma nearest_neighbor_distance_on_any_size_witness :
  let pts := points_ planar_source in
  let k := turns (length pts) in
  ComputePointCloudNearestNeighborDistance brute_force_knn planar_source
  = Some (map (λ p, (nearest_other_distance brute_force_knn pts p).1) (take k pts)
          ++ replicate (length pts - k) 0%float,
          concat (map (λ p, (nearest_other_distance brute_force_knn pts p).2) (take k pts)))
  ∧ k ≤ length pts
  ∧ ((2 ^ 31 ≤ Z.of_nat (length pts) < 2 ^ 32)%Z →
     ComputePointCloudNearestNeighborDistance brute_force_knn planar_source
     = Some (replicate (length pts) 0%float, [])).
Proof.
  apply (nearest_neighbor_distance_on_any_size brute_force_knn planar_source).
  exact brute_force_meets_contract.
Defined.

(** ** Mahalanobis distance *)

Lemma mean_and_covariance_of_points input :
  ComputePointCloudMeanAndCovariance input
  = ComputePointCloudMeanAndCovariance (mkPointCloud (points_ input) [] []).
Proof. by destruct input. Qed.

(** X10: [ComputePointCloudMahalanobisDistance] never fails and returns one
    value per point: for the first [(int)N] points the square root of
    (p - mean)^T * inverse(covariance) * (p - mean), with the mean and the
    covariance of the cloud, and 0.0 for the others; all N values are
    computed when N fits an int, and an empty cloud gives no value. *)
Theorem mahalanobis_distance_per_point inverse input :
  let pts := points_ input in
  let k := turns (length pts) in
  ComputePointCloudMahalanobisDistance inverse input
  = Some (map (mahalanobis_of inverse pts) (take k pts) ++ replicate (length pts - k) 0%float)
  ∧ ((Z.of_nat (length pts) ≤ INT_MAX)%Z →
     ComputePointCloudMahalanobisDistance inverse input
     = Some (map (mahalanobis_of inverse pts) pts))
  ∧ (pts = [] → ComputePointCloudMahalanobisDistance inverse input = Some []).
Proof.
  intros pts k.
  assert (Hmain : ComputePointCloudMahalanobisDistance inverse input
    = Some (map (mahalanobis_of inverse pts) (take k pts)
            ++ replicate (length pts - k) 0%float)).
  { unfold ComputePointCloudMahalanobisDistance, mahalanobis_of, for_int_below_size.
    fold (turns (length (points_ input))). fold pts. fold k.
    rewrite (mean_and_covariance_of_points input). fold pts.
    destruct (ComputePointCloudMeanAndCovariance (mkPointCloud pts [] [])) as [mean covariance].
    rewrite (for_loop_fills_slots pts
               (λ x, PrimFloat.sqrt (quadratic_form (inverse covariance) (sub3 x mean)))).
    - by rewrite take_0, drop_0, drop_replicate.
    - intros i p out Hp Hi. rewrite Hp. cbn [mbind option_bind].
      unfold vec_store. by rewrite decide_True.
    - pose proof (turns_le (length pts)). unfold k. lia.
    - by rewrite length_replicate. }
  split; [exact Hmain|]. split.
  - intros Hsize. rewrite Hmain. unfold k.
    rewrite (turns_small _ Hsize), take_ge, Nat.sub_diag by done.
    cbn [replicate]. by rewrite app_nil_r.
  - intros Hnil. rewrite Hmain. unfold k. by rewrite Hnil.
Qed.

(** ** Device mirrors: outcomes and invariant *)

(** What the three runtime calls do to the handles, the buffers and the next
    address. *)
Lemma cudaFree_effect p w :
  let w' := (cudaFree p w).2 in
  (∀ m, handle m w' = handle m w)
  ∧ fresh (device w') = fresh (device w)
  ∧ buffers (device w')
    = (if is_success (cudaFree p w).1 then delete p (buffers (device w))
       else buffers (device w))
  ∧ host w' = host w.
Proof.
  unfold cudaFree, answer. destruct (answers (device w)) as [|[|c] rest]; cbn;
    (split; [by intros []|done]).
Qed.

Lemma cudaMalloc_effect slot size w :
  let w' := (cudaMalloc slot size w).2 in
  (∀ m, m ≠ slot → handle m w' = handle m w)
  ∧ host w' = host w
  ∧ (if is_success (cudaMalloc slot size w).1
     then handle slot w' = Some (fresh (device w))
          ∧ fresh (device w') = S (fresh (device w))
          ∧ buffers (device w')
            = <[fresh (device w) := mkBuffer size None]> (buffers (device w))
     else handle slot w' = handle slot w
          ∧ fresh (device w') = fresh (device w)
          ∧ buffers (device w') = buffers (device w)).
Proof.
  unfold cudaMalloc, answer. destruct (answers (device w)) as [|[|c] rest]; cbn;
    (split; [by intros [] ?; destruct slot | by destruct slot]).
Qed.

Lemma cudaMemcpy_effect dst src count w :
  let w' := (cudaMemcpy dst src count w).2 in
  (∀ m, handle m w' = handle m w)
  ∧ fresh (device w') = fresh (device w)
  ∧ host w' = host w
  ∧ buffers (device w')
    = (match dst with
       | Some p =>
           if is_success (cudaMemcpy dst src count w).1
           then <[p := mkBuffer count (Some src)]> (buffers (device w))
           else buffers (device w)
       | None => buffers (device w)
       end).
Proof.
  unfold cudaMemcpy, answer. destruct (answers (device w)) as [|[|c] rest], dst; cbn;
    (split; [by intros []|done]).
Qed.

Lemma handle_set_handle m p w : handle m (set_handle m p w) = p.
Proof. by destruct m. Qed.

Lemma device_set_handle m p w : device (set_handle m p w) = device w.
Proof. by destruct m. Qed.

Lemma host_set_handle m p w : host (set_handle m p w) = host w.
Proof. by destruct m. Qed.

(** [device_ok] looks at the handles, the buffers and the next address
    only. *)
Lemma device_ok_ext w w' :
  (∀ m, handle m w' = handle m w) →
  buffers (device w') = buffers (device w) →
  fresh (device w') = fresh (device w) →
  device_ok w → device_ok w'.
Proof.
  intros Hh Hb Hf (Hlive & Hdist & Hbelow). unfold device_ok.
  rewrite Hb, Hf. repeat split.
  - intros m p. rewrite Hh. apply Hlive.
  - intros m1 m2 p. rewrite !Hh. apply Hdist.
  - done.
Qed.

Lemma device_ok_freed m p w :
  device_ok w → handle m w = Some p →
  is_success (cudaFree p w).1 = true →
  device_ok (set_handle m None (cudaFree p w).2).
Proof.
  intros (Hlive & Hdist & Hbelow) Hp Hst.
  destruct (cudaFree_effect p w) as (Hh & Hf & Hb & _). rewrite Hst in Hb.
  unfold device_ok. rewrite device_set_handle, Hb, Hf.
  assert (Hhandle : ∀ m' q, handle m' (set_handle m None (cudaFree p w).2) = Some q →
                            m' ≠ m ∧ handle m' w = Some q).
  { intros m' q. destruct (decide (m' = m)) as [-> | Hne].
    - by rewrite handle_set_handle.
    - rewrite set_handle_other, Hh by done. done. }
  repeat split.
  - intros m' q [Hne Hq]%Hhandle.
    rewrite lookup_delete_ne; [by eapply Hlive|].
    intros <-. apply Hne. by eapply Hdist.
  - intros m1 m2 q [_ H1]%Hhandle [_ H2]%Hhandle. by eapply Hdist.
  - intros q [b Hq]. apply lookup_delete_Some in Hq as [_ Hq]. by apply Hbelow.
Qed.

Lemma device_ok_free_failed p w :
  device_ok w → is_success (cudaFree p w).1 = false → device_ok (cudaFree p w).2.
Proof.
  intros Hok Hst. destruct (cudaFree_effect p w) as (Hh & Hf & Hb & _).
  rewrite Hst in Hb. by eapply device_ok_ext.
Qed.

Lemma device_ok_malloc m size w :
  device_ok w → handle m w = None → device_ok (cudaMalloc m size w).2.
Proof.
  intros (Hlive & Hdist & Hbelow) Hnull.
  destruct (cudaMalloc_effect m size w) as (Hother & _ & Heff).
  destruct (is_success (cudaMalloc m size w).1).
  - destruct Heff as (Hm & Hf & Hb). unfold device_ok. rewrite Hb, Hf.
    assert (Hhandle : ∀ m' q, handle m' (cudaMalloc m size w).2 = Some q →
              (m' = m ∧ q = fresh (device w))
              ∨ (m' ≠ m ∧ handle m' w = Some q ∧ q < fresh (device w))).
    { intros m' q Hq. destruct (decide (m' = m)) as [-> | Hne].
      - left. split; [done | congruence].
      - right. rewrite Hother in Hq by done. split; [done|]. split; [done|].
        by eapply Hbelow, Hlive. }
    repeat split.
    + intros m' q [[-> ->] | (Hne & Hq & Hlt)]%Hhandle.
      * rewrite lookup_insert_eq. by eexists.
      * rewrite lookup_insert_ne by lia. by eapply Hlive.
    + intros m1 m2 q [[-> ->] | (Hne1 & Hq1 & Hlt1)]%Hhandle
                     [[-> Heq] | (Hne2 & Hq2 & Hlt2)]%Hhandle; try done; try lia.
      by eapply Hdist.
    + intros q [b Hq]. apply lookup_insert_Some in Hq as [[<- _] | [_ Hq]]; [lia|].
      assert (q < fresh (device w)) by (apply Hbelow; by eexists). lia.
  - destruct Heff as (Hm & Hf & Hb).
    apply (device_ok_ext w); try done.
    intros m'. destruct (decide (m' = m)) as [-> | Hne]; [done | by apply Hother].
Qed.

Lemma device_ok_memcpy m src count w :
  device_ok w → device_ok (cudaMemcpy (handle m w) src count w).2.
Proof.
  intros Hok. pose proof Hok as (Hlive & Hdist & Hbelow).
  destruct (cudaMemcpy_effect (handle m w) src count w) as (Hh & Hf & _ & Hb).
  destruct (handle m w) as [p|] eqn:Hp; [|by eapply device_ok_ext].
  destruct (is_success (cudaMemcpy (Some p) src count w).1); [|by eapply device_ok_ext].
  unfold device_ok. rewrite Hb, Hf.
  assert (Hsame : ∀ q, is_Some (<[p := mkBuffer count (Some src)]> (buffers (device w)) !! q)
                       ↔ is_Some (buffers (device w) !! q)).
  { intros q. rewrite lookup_insert_is_Some. split.
    - intros [<- | [_ H]]; [by eapply Hlive | done].
    - intros H. destruct (decide (p = q)); auto. }
  repeat split.
  - intros m' q. rewrite Hh, Hsame. apply Hlive.
  - intros m1 m2 q. rewrite !Hh. apply Hdist.
  - intros q. rewrite Hsame. apply Hbelow.
Qed.

Lemma device_ok_printf st w : device_ok w → device_ok (printf st w).
Proof. apply device_ok_ext; [by intros [] | done | done]. Qed.

Lemma device_ok_refresh m data w :
  device_ok w → device_ok (UpdateDeviceMemory_data m data w).2.
Proof.
  intros Hok. unfold UpdateDeviceMemory_data.
  assert (Hbody : ∀ w0, device_ok w0 → handle m w0 = None →
    device_ok
      (let '(status, w1) := cudaMalloc m (length data * sizeof_Vector3d) w0 in
       if negb (is_success status) then (Some false, w1)
       else
         let '(status0, w2) :=
           cudaMemcpy (handle m w1) data (length data * sizeof_Vector3d) w1 in
         if negb (is_success status0) then (Some true, printf status0 w2) else (None, w2)).2).
  { intros w0 Hok0 Hnull.
    pose proof (device_ok_malloc m (length data * sizeof_Vector3d) w0 Hok0 Hnull) as H1.
    destruct (cudaMalloc m (length data * sizeof_Vector3d) w0) as [st w1].
    cbn [snd] in H1. destruct (negb (is_success st)); [done|].
    pose proof (device_ok_memcpy m data (length data * sizeof_Vector3d) w1 H1) as H2.
    destruct (cudaMemcpy (handle m w1) data (length data * sizeof_Vector3d) w1) as [st2 w2].
    cbn [snd] in H2. destruct (negb (is_success st2)); cbn [snd]; [by apply device_ok_printf|done]. }
  destruct (handle m w) as [p|] eqn:Hp; [|by apply Hbody].
  pose proof (device_ok_freed m p w Hok Hp) as Hfreed.
  pose proof (device_ok_free_failed p w Hok) as Hfailed.
  destruct (cudaFree p w) as [st w1]. cbn [fst snd] in *.
  destruct (is_success st); cbn [negb].
  - apply Hbody; [by apply Hfreed | apply handle_set_handle].
  - by apply Hfailed.
Qed.

Lemma device_ok_release m w :
  device_ok w → device_ok (ReleaseDeviceMemory_data m w).2.
Proof.
  intros Hok. unfold ReleaseDeviceMemory_data.
  destruct (handle m w) as [p|] eqn:Hp; [|done].
  pose proof (device_ok_freed m p w Hok Hp) as Hfreed.
  pose proof (device_ok_free_failed p w Hok) as Hfailed.
  destruct (cudaFree p w) as [st w1]. cbn [fst snd] in *.
  destruct (is_success st); cbn [negb snd]; auto.
Qed.

Lemma and_also_keeps {St} (P : St → Prop) (a b : St → Returned * St) :
  (∀ s, P s → P (a s).2) → (∀ s, P s → P (b s).2) →
  ∀ s, P s → P (and_also a b s).2.
Proof.
  intros Ha Hb s Hs. unfold and_also. specialize (Ha s Hs).
  destruct (a s) as [[[]|] s']; cbn [snd] in *; auto.
Qed.

Lemma mirrored_cuda_ok sts : device_ok (mirrored_cuda sts).
Proof.
  repeat split.
  - intros [] p; cbn; intros H; try discriminate. injection H as <-. by eexists.
  - intros [] [] p; cbn; intros H1 H2; congruence.
  - intros p [b Hb]. cbn in Hb. apply lookup_singleton_Some in Hb as [<- _]. cbn. lia.
Qed.

(** X11: what the refresh of one mirror returns, by the call that failed.
    [cudaFree] is called only when the handle is set, then [cudaMalloc],
    then [cudaMemcpy].  The refresh returns false when [cudaFree] failed
    (nothing else is called, the handle and the buffers are as they were)
    and when [cudaMalloc] failed (no copy is made, the handle is null); it
    returns true when, and only when, the two succeeded and [cudaMemcpy]
    failed, the handle then naming a buffer of the right size that was
    never written and the status being printed; when every call succeeded
    the handle names a buffer holding the host data and the end of the
    function is reached with no value returned.  The host arrays are never
    changed. *)
Theorem refresh_outcomes m data w :
  let size := length data * sizeof_Vector3d in
  let freed := match handle m w with Some p => [CudaFree p] | None => [] end in
  let k := length freed in
  let free_ok :=
    match handle m w with Some _ => is_success (coming_status w 0) | None => true end in
  let malloc_ok := is_success (coming_status w k) in
  let copy_ok := is_success (coming_status w (S k)) in
  let r := (UpdateDeviceMemory_data m data w).1 in
  let w' := (UpdateDeviceMemory_data m data w).2 in
  host w' = host w ∧
  r = (if negb free_ok then Some false
       else if negb malloc_ok then Some false
       else if negb copy_ok then Some true
       else None) ∧
  (free_ok = false →
     handle m w' = handle m w ∧ buffers (device w') = buffers (device w)
     ∧ calls (device w') = calls (device w) ++ freed) ∧
  (free_ok = true → malloc_ok = false →
     handle m w' = None
     ∧ calls (device w') = calls (device w) ++ freed ++ [CudaMalloc m size]) ∧
  (free_ok = true → malloc_ok = true →
     let p := fresh (device w) in
     handle m w' = Some p
     ∧ buffers (device w') !! p = Some (mkBuffer size (if copy_ok then Some data else None))
     ∧ calls (device w')
       = calls (device w) ++ freed ++ [CudaMalloc m size; CudaMemcpy (Some p) size]
         ++ (if copy_ok then [] else [Printf (coming_status w (S k))])) ∧
  match r with
  | Some false =>
      handle m w' = None
      ∨ (handle m w' = handle m w ∧ buffers (device w') = buffers (device w))
  | Some true =>
      ∃ p, handle m w' = Some p ∧ buffers (device w') !! p = Some (mkBuffer size None)
  | None =>
      ∃ p, handle m w' = Some p ∧ buffers (device w') !! p = Some (mkBuffer size (Some data))
  end.
Proof.
  cbv zeta. unfold UpdateDeviceMemory_data, coming_status.
  generalize (length data * sizeof_Vector3d). intros size.
  destruct w as [hst p1 p2 p3 [ans fr bufs cl]].
  destruct m; cbn [handle d_points_ d_normals_ d_colors_].
  all: match goal with |- context [match ?h with Some _ => _ | None => _ end] =>
         destruct h as [q|] end.
  all: destruct ans as [|[|c0] [|[|c1] [|[|c2] ans]]].
  all: cbn.
  all: rewrite <- ?app_assoc; cbn [app].
  all: repeat split; try done; try (intros; discriminate).
  all: try (intros _ _); try (intros _).
  all: rewrite ?lookup_insert_eq; try done.
  all: try (by right); try (by left); try (eexists; split; [done|]; by rewrite ?lookup_insert_eq).
Qed.

(** X12: the refresh and the release of a mirror, and the refresh and the
    release of all three, keep the handles and the device in agreement: a
    handle that is set names a live buffer, no two handles name the same
    buffer, and buffers lie below the next address. *)
Theorem device_calls_keep_handles_valid m data w :
  device_ok w →
  device_ok (UpdateDeviceMemory_data m data w).2
  ∧ device_ok (ReleaseDeviceMemory_data m w).2
  ∧ device_ok (UpdateDeviceMemory w).2
  ∧ device_ok (ReleaseDeviceMemory w).2.
Proof.
  intros Hok. split; [by apply device_ok_refresh|]. split; [by apply device_ok_release|].
  split.
  - unfold UpdateDeviceMemory.
    repeat apply and_also_keeps; try done; intros s Hs; by apply device_ok_refresh.
  - unfold ReleaseDeviceMemory.
    repeat apply and_also_keeps; try done; intros s Hs; by apply device_ok_release.
Qed.

Lemma device_calls_keep_handles_valid_witness :
  device_ok (UpdateDeviceMemory_data d_points [Vec3 1 2 3] (mirrored_cuda [])).2
  ∧ device_ok (ReleaseDeviceMemory_data d_points (mirrored_cuda [])).2
  ∧ device_ok (UpdateDeviceMemory (mirrored_cuda [])).2
  ∧ device_ok (ReleaseDeviceMemory (mirrored_cuda [])).2.
Proof.
  apply (device_calls_keep_handles_valid d_points [Vec3 1 2 3] (mirrored_cuda [])).
  apply mirrored_cuda_ok.
Defined.

Lemma release_true_iff m w :
  (ReleaseDeviceMemory_data m w).1 = Some true ↔ handle m w = None.
Proof.
  unfold ReleaseDeviceMemory_data. destruct (handle m w) as [p|]; [|done].
  destruct (cudaFree p w) as [st w']. destruct (negb (is_success st)); cbn; split; discriminate.
Qed.

Lemma and_also_true {St} (a b : St → Returned * St) s :
  (and_also a b s).1 = Some true → (a s).1 = Some true ∧ (b (a s).2).1 = Some true.
Proof. unfold and_also. destruct (a s) as [[[]|] s']; cbn; try discriminate; auto. Qed.

(** X13: [ReleaseDeviceMemory()] returns true exactly when the three
    handles were already null, and then changes nothing: whenever a mirror
    is actually released the call does not return true. *)
Theorem release_all_true_iff_nothing_to_release w :
  ((ReleaseDeviceMemory w).1 = Some true
   ↔ d_points_ w = None ∧ d_normals_ w = None ∧ d_colors_ w = None)
  ∧ (d_points_ w = None → d_normals_ w = None → d_colors_ w = None →
     ReleaseDeviceMemory w = (Some true, w)).
Proof.
  assert (Hnull : d_points_ w = None → d_normals_ w = None → d_colors_ w = None →
                  ReleaseDeviceMemory w = (Some true, w)).
  { intros Hp Hn Hc.
    unfold ReleaseDeviceMemory, and_also, ReleaseDevicePoints, ReleaseDeviceNormals,
      ReleaseDeviceColors.
    by rewrite !release_null_handle. }
  split; [|exact Hnull]. split.
  - unfold ReleaseDeviceMemory. intros [[H1 H2]%and_also_true H3]%and_also_true.
    unfold ReleaseDevicePoints in *. apply release_true_iff in H1.
    unfold and_also in H3. rewrite (release_null_handle d_points w H1) in H2, H3.
    cbn [fst snd] in *. unfold ReleaseDeviceNormals in *. apply release_true_iff in H2.
    rewrite (release_null_handle d_normals w H2) in H3. cbn [fst snd] in H3.
    unfold ReleaseDeviceColors in H3. apply release_true_iff in H3. done.
  - intros (Hp & Hn & Hc). by rewrite Hnull.
Qed.

(** X14: the refresh and the release of one mirror leave the other mirrors
    alone: on a state where handles and device agree, another handle that
    is set keeps its value and its buffer keeps its size and contents. *)
Theorem other_mirrors_are_untouched m m' data w q :
  device_ok w → m' ≠ m → handle m' w = Some q →
  (handle m' (UpdateDeviceMemory_data m data w).2 = Some q
   ∧ buffers (device (UpdateDeviceMemory_data m data w).2) !! q = buffers (device w) !! q)
  ∧ (handle m' (ReleaseDeviceMemory_data m w).2 = Some q
     ∧ buffers (device (ReleaseDeviceMemory_data m w).2) !! q = buffers (device w) !! q).
Proof.
  intros Hok Hne Hq. pose proof Hok as (Hlive & Hdist & Hbelow).
  assert (Hqlt : q < fresh (device w)) by (by eapply Hbelow, Hlive).
  assert (Hfree : ∀ p, handle m w = Some p →
            buffers (device (cudaFree p w).2) !! q = buffers (device w) !! q
            ∧ fresh (device (cudaFree p w).2) = fresh (device w)
            ∧ handle m' (cudaFree p w).2 = Some q).
  { intros p Hp. destruct (cudaFree_effect p w) as (Hh & Hf & Hb & _).
    rewrite Hh, Hb, Hf. repeat split; [|done].
    destruct (is_success (cudaFree p w).1); [|done].
    apply lookup_delete_ne. intros ->. apply Hne. by eapply Hdist. }
  split.
  - pose (alloc := λ w0 : CudaCloud,
      let '(status, w1) := cudaMalloc m (length data * sizeof_Vector3d) w0 in
      if negb (is_success status) then (Some false, w1) : Returned * CudaCloud
      else
        let '(status0, w2) :=
          cudaMemcpy (handle m w1) data (length data * sizeof_Vector3d) w1 in
        if negb (is_success status0) then (Some true, printf status0 w2) else (None, w2)).
    change (UpdateDeviceMemory_data m data w)
      with (match handle m w with
            | Some p =>
                let '(status, w1) := cudaFree p w in
                if negb (is_success status) then (Some false, w1)
                else alloc (set_handle m None w1)
            | None => alloc w
            end).
    assert (Hbody : ∀ w0, q < fresh (device w0) → handle m' w0 = Some q →
              handle m' (alloc w0).2 = Some q
              ∧ buffers (device (alloc w0).2) !! q = buffers (device w0) !! q).
    { intros w0 Hlt Hq0. unfold alloc.
      destruct (cudaMalloc_effect m (length data * sizeof_Vector3d) w0) as (Hh1 & _ & Heff).
      specialize (Hh1 m' Hne).
      destruct (cudaMalloc m (length data * sizeof_Vector3d) w0) as [st w1].
      cbn [fst snd] in *. destruct (is_success st); cbn [negb fst snd].
      2:{ destruct Heff as (_ & _ & Hb). rewrite Hb. split; congruence. }
      destruct Heff as (Hm & Hf & Hb). rewrite Hm.
      destruct (cudaMemcpy_effect (Some (fresh (device w0))) data
                  (length data * sizeof_Vector3d) w1) as (Hh2 & _ & _ & Hb2).
      destruct (cudaMemcpy (Some (fresh (device w0))) data
                  (length data * sizeof_Vector3d) w1) as [st2 w2].
      cbn [fst snd] in *.
      assert (Hbq : buffers (device w2) !! q = buffers (device w0) !! q).
      { rewrite Hb2. destruct (is_success st2); rewrite ?Hb, ?lookup_insert_ne by lia; done. }
      destruct (is_success st2); cbn [negb fst snd]; rewrite ?printf_handle, Hh2;
        (split; [congruence | done]). }
    clearbody alloc.
    destruct (handle m w) as [p|] eqn:Hp; [|by apply Hbody].
    destruct (Hfree p eq_refl) as (Hb & Hf & Hh).
    destruct (cudaFree p w) as [st w1]. cbn [fst snd] in *.
    destruct (is_success st); cbn [negb fst snd]; [|done].
    destruct (Hbody (set_handle m None w1)) as [H1 H2].
    + by rewrite device_set_handle, Hf.
    + by rewrite set_handle_other.
    + split; [done|]. by rewrite H2, device_set_handle.
  - unfold ReleaseDeviceMemory_data.
    destruct (handle m w) as [p|] eqn:Hp; [|done].
    destruct (Hfree p eq_refl) as (Hb & Hf & Hh).
    destruct (cudaFree p w) as [st w1]. cbn [fst snd] in *.
    destruct (is_success st); cbn [negb fst snd]; [|done].
    by rewrite set_handle_other, device_set_handle.
Qed.

Lemma other_mirrors_are_untouched_witness :
  (handle d_points (UpdateDeviceMemory_data d_normals [Vec3 0 0 1] (mirrored_cuda [])).2 = Some 7
   ∧ buffers (device (UpdateDeviceMemory_data d_normals [Vec3 0 0 1] (mirrored_cuda [])).2) !! 7
     = buffers (device (mirrored_cuda [])) !! 7)
  ∧ (handle d_points (ReleaseDeviceMemory_data d_normals (mirrored_cuda [])).2 = Some 7
     ∧ buffers (device (ReleaseDeviceMemory_data d_normals (mirrored_cuda [])).2) !! 7
       = buffers (device (mirrored_cuda [])) !! 7).
Proof.
  apply (other_mirrors_are_untouched d_normals d_points [Vec3 0 0 1] (mirrored_cuda []) 7).
  - apply mirrored_cuda_ok.
  - discriminate.
  - reflexivity.
Defined.

(** ** [Transform] and concatenation *)

Lemma map_concat_attr (f : Vector3d → Vector3d) keep n (xa xb : list Vector3d) :
  map f (concat_attr keep n xa xb) = concat_attr keep n (map f xa) (map f xb).
Proof. unfold concat_attr. destruct keep; [|done]. by rewrite map_app, <- fmap_take. Qed.

Lemma Transform_plus_value M A B :
  Transform M (plus_value A B) = plus_value (Transform M A) (Transform M B).
Proof.
  destruct (Transform_lengths M A) as (HpA & _ & HccA).
  destruct (Transform_lengths M B) as (_ & _ & HccB).
  destruct (Transform_presence M A) as (HeA & HnA & HcA).
  destruct (Transform_presence M B) as (HeB & HnB & HcB).
  unfold plus_value. rewrite HeB. destruct (IsEmpty B); [done|].
  unfold concat_clouds. rewrite HeA, HnA, HnB, HcA, HcB, HpA, HccA, HccB.
  unfold Transform. cbn [points_ normals_ colors_]. rewrite !range_for_map.
  f_equal.
  - apply map_app.
  - apply map_concat_attr.
Qed.

(** X15: [Transform] distributes over [+]: transforming the sum of two
    clouds gives the sum of the two transformed clouds. *)
Theorem transform_distributes_over_plus uninit M a b tmp (h : Heap) A B :
  h !! a = Some A → h !! b = Some B → tmp ≠ b →
  ∃ R, operator_plus uninit a b tmp h = Some R
     ∧ operator_plus uninit a b tmp (Transform M <$> h) = Some (Transform M R).
Proof.
  intros HA HB Hne. exists (plus_value A B).
  split; [by apply operator_plus_is_plus_value|].
  rewrite Transform_plus_value.
  apply operator_plus_is_plus_value; [| | done]; by rewrite lookup_fmap, ?HA, ?HB.
Qed.

Lemma transform_distributes_over_plus_witness :
  ∃ R, operator_plus stale 0 1 5 three_clouds = Some R
     ∧ operator_plus stale 0 1 5
         (Transform (Mat4 (Vec4 0 (-1) 0 2) (Vec4 1 0 0 0) (Vec4 0 0 1 0) (Vec4 0 0 0 1))
            <$> three_clouds)
       = Some (Transform (Mat4 (Vec4 0 (-1) 0 2) (Vec4 1 0 0 0) (Vec4 0 0 1 0) (Vec4 0 0 0 1)) R).
Proof.
  apply (transform_distributes_over_plus stale
           (Mat4 (Vec4 0 (-1) 0 2) (Vec4 1 0 0 0) (Vec4 0 0 1 0) (Vec4 0 0 0 1))
           0 1 5 three_clouds full_cloud normals_cloud); [reflexivity | reflexivity | lia].
Defined.

(** ** Bounds and NaN *)

Lemma SFltb_not_nan x y :
  SFltb x y = true → SFeqb x x = true ∧ SFeqb y y = true.
Proof.
  unfold SFltb, SFeqb.
  destruct x as [sx | sx | | sx mx ex], y as [sy | sy | | sy my ey];
    cbn; try destruct sx; try destruct sy; try discriminate; intros _;
    rewrite ?Z.compare_refl, ?Pos.compare_cont_refl; by split.
Qed.

Lemma ltb_not_nan (x y : float) :
  PrimFloat.ltb x y = true → PrimFloat.is_nan x = false ∧ PrimFloat.is_nan y = false.
Proof.
  unfold PrimFloat.is_nan. rewrite ltb_spec, !FloatAxioms.eqb_spec.
  intros [Hx Hy]%SFltb_not_nan. by rewrite Hx, Hy.
Qed.

(** The element chosen by the loops is the one they started from or one
    that compared below (above) another. *)
Lemma min_element_loop_choice {A} (comp : A → A → bool) rest : ∀ pre sv smallest,
  pre !! smallest = Some sv →
  ∃ v, (pre ++ rest) !! min_element_loop comp smallest sv (length pre) rest = Some v
       ∧ (v = sv ∨ ∃ y, comp v y = true).
Proof.
  induction rest as [|x rest IH]; intros pre sv smallest Hs; simpl.
  - exists sv. rewrite app_nil_r. auto.
  - specialize (IH (pre ++ [x])).
    rewrite length_app, Nat.add_1_r, <- app_assoc in IH. simpl in IH.
    destruct (comp x sv) eqn:Hc.
    + destruct (IH x (length pre)) as (v & Hv & [-> | Hy]).
      * rewrite lookup_app_r, Nat.sub_diag; done.
      * exists x. eauto.
      * exists v. eauto.
    + apply IH. rewrite lookup_app_l; [done | by eapply lookup_lt_Some].
Qed.

Lemma max_element_loop_choice {A} (comp : A → A → bool) rest : ∀ pre lv largest,
  pre !! largest = Some lv →
  ∃ v, (pre ++ rest) !! max_element_loop comp largest lv (length pre) rest = Some v
       ∧ (v = lv ∨ ∃ y, comp y v = true).
Proof.
  induction rest as [|x rest IH]; intros pre lv largest Hs; simpl.
  - exists lv. rewrite app_nil_r. auto.
  - specialize (IH (pre ++ [x])).
    rewrite length_app, Nat.add_1_r, <- app_assoc in IH. simpl in IH.
    destruct (comp lv x) eqn:Hc.
    + destruct (IH x (length pre)) as (v & Hv & [-> | Hy]).
      * rewrite lookup_app_r, Nat.sub_diag; done.
      * exists x. eauto.
      * exists v. eauto.
    + apply IH. rewrite lookup_app_l; [done | by eapply lookup_lt_Some].
Qed.

(** With a NaN under it the loop never moves: nothing compares with NaN. *)
Lemma min_element_loop_stuck k rest : ∀ smallest sv first,
  PrimFloat.is_nan (coeff sv k) = true →
  min_element_loop (less_on k) smallest sv first rest = smallest.
Proof.
  induction rest as [|x rest IH]; intros smallest sv first Hnan; [done|]. simpl.
  destruct (less_on k x sv) eqn:Hc; [|by apply IH].
  apply ltb_not_nan in Hc as [_ Hc]. congruence.
Qed.

Lemma max_element_loop_stuck k rest : ∀ largest lv first,
  PrimFloat.is_nan (coeff lv k) = true →
  max_element_loop (less_on k) largest lv first rest = largest.
Proof.
  induction rest as [|x rest IH]; intros largest lv first Hnan; [done|]. simpl.
  destruct (less_on k lv x) eqn:Hc; [|by apply IH].
  apply ltb_not_nan in Hc as [Hc _]. congruence.
Qed.

Lemma min_nan_on_axis k p ps :
  PrimFloat.is_nan (coeff ((p :: ps) !!! min_element (less_on k) (p :: ps)) k)
  = PrimFloat.is_nan (coeff p k).
Proof.
  destruct (PrimFloat.is_nan (coeff p k)) eqn:Hp.
  - unfold min_element. by rewrite min_element_loop_stuck.
  - destruct (min_element_loop_choice (less_on k) ps [p] p 0 eq_refl) as (v & Hv & Hch).
    change ([p] ++ ps) with (p :: ps) in Hv.
    change (min_element_loop (less_on k) 0 p (length [p]) ps)
      with (min_element (less_on k) (p :: ps)) in Hv.
    rewrite (list_lookup_total_correct _ _ _ Hv).
    destruct Hch as [-> | [y Hy]]; [done|]. by apply ltb_not_nan in Hy as [? _].
Qed.

Lemma max_nan_on_axis k p ps :
  PrimFloat.is_nan (coeff ((p :: ps) !!! max_element (less_on k) (p :: ps)) k)
  = PrimFloat.is_nan (coeff p k).
Proof.
  destruct (PrimFloat.is_nan (coeff p k)) eqn:Hp.
  - unfold max_element. by rewrite max_element_loop_stuck.
  - destruct (max_element_loop_choice (less_on k) ps [p] p 0 eq_refl) as (v & Hv & Hch).
    change ([p] ++ ps) with (p :: ps) in Hv.
    change (max_element_loop (less_on k) 0 p (length [p]) ps)
      with (max_element (less_on k) (p :: ps)) in Hv.
    rewrite (list_lookup_total_correct _ _ _ Hv).
    destruct Hch as [-> | [y Hy]]; [done|]. by apply ltb_not_nan in Hy as [_ ?].
Qed.

(** X16: a bound is NaN on an axis exactly when the first point of the
    cloud is NaN on that axis: a NaN in the first point is returned as the
    minimum and as the maximum, a NaN in any later point is passed over. *)
Theorem bounds_are_nan_where_the_first_point_is p ps normals colors :
  let pc := mkPointCloud (p :: ps) normals colors in
  nan_on_same_axes (GetMinBound pc) p = true
  ∧ nan_on_same_axes (GetMaxBound pc) p = true.
Proof.
  cbv zeta. unfold nan_on_same_axes, GetMinBound, GetMaxBound.
  cbn [HasPoints points_ length Nat.eqb negb vx vy vz].
  rewrite (min_nan_on_axis 0), (min_nan_on_axis 1), (min_nan_on_axis 2).
  rewrite (max_nan_on_axis 0), (max_nan_on_axis 1), (max_nan_on_axis 2).
  by rewrite !eqb_reflx.
Qed.

Example bounds_with_nan :
  GetMinBound (mkPointCloud [Vec3 nan 5 0; Vec3 1 nan 0; Vec3 2 3 0] [] []) = Vec3 nan 3 0
  ∧ GetMaxBound (mkPointCloud [Vec3 nan 5 0; Vec3 1 nan 0; Vec3 2 3 0] [] []) = Vec3 nan 5 0.
Proof. split; reflexivity. Qed.
